(** * obs-ocr: the recognition worker of tesseract-ocr-utils.cpp

    A shallow embedding of [src/tesseract-ocr-utils.cpp]: the per-character
    smoothing filter, the confidence check of [run_tesseract_ocr], the region
    filter of [extract_text_detection_boxes] and the control flow of one
    iteration of [tesseract_thread].

    Conventions.  [std::string] and [std::deque<char>] are [list ascii];
    [size_t] quantities that are only compared and subtracted under a guard
    are [nat]; [int] quantities are [Z] and their arithmetic wraps around
    modulo 2^32 (two's complement, see [Int]); [float] is IEEE binary32
    (see [F32]).  Where the C++ expression has no value at all (a vector
    is indexed out of range, a null pointer is used, a float outside the
    [int] range is converted) the embedded function returns [None], or
    [Undefined] inside the worker.  The end iterator of a [std::string]
    points at the terminator the string stores, and reading it gives NUL. *)

From Stdlib Require Import ZArith QArith Ascii String Lia.
From Stdlib Require Import Floats.SpecFloat.
From stdpp Require Import base option list.

Close Scope Q_scope.
Local Open Scope nat_scope.

(** ** Machine arithmetic *)

Module Int.

Local Open Scope Z_scope.

Definition min_signed : Z := - 2 ^ 31.
Definition max_signed : Z := 2 ^ 31 - 1.

(** The value of a 32-bit two's complement [int] holding [z]. *)
Definition wrap (z : Z) : Z := (z + 2 ^ 31) mod 2 ^ 32 - 2 ^ 31.

Definition add (a b : Z) : Z := wrap (a + b).
Definition sub (a b : Z) : Z := wrap (a - b).
Definition mul (a b : Z) : Z := wrap (a * b).
(** [/] and [%] truncate towards zero. *)
Definition div (a b : Z) : Z := wrap (Z.quot a b).
Definition rem (a b : Z) : Z := Z.rem a b.

Definition in_range (z : Z) : bool := (min_signed <=? z) && (z <=? max_signed).

End Int.

Module F32.

Local Open Scope Z_scope.

Definition prec : Z := 24.
Definition emax : Z := 128.

(** [(float)n] for an integer [n]: rounded to nearest, ties to even. *)
Definition of_int (n : Z) : spec_float := binary_normalize prec emax n 0 false.

Definition div (x y : spec_float) : spec_float := SFdiv prec emax x y.
Definition mul (x y : spec_float) : spec_float := SFmul prec emax x y.

(** [(int)x]: the fractional part is discarded; there is no result when
    [x] is not finite or the truncated value is not an [int]. *)
Definition to_int (x : spec_float) : option Z :=
  match x with
  | S754_zero _ => Some 0
  | S754_finite s m e =>
      let magnitude :=
        if 0 <=? e then Z.pos m * 2 ^ e else Z.pos m / 2 ^ (- e) in
      let v := if s then - magnitude else magnitude in
      if Int.in_range v then Some v else None
  | S754_infinity _ => None
  | S754_nan => None
  end.

End F32.

(** ** The standard-library algorithms the filter uses *)

Module Std.

(** [std::count(first, last, a)] on a range of characters. *)
Fixpoint count (window : list ascii) (a : ascii) : nat :=
  match window with
  | [] => 0
  | x :: rest => (if Ascii.eqb x a then 1 else 0) + count rest a
  end.

(** The comparator of [add_reading]'s lambda, for any way [f] of counting:
    [a] is less than [b] when [f a < f b]. *)
Definition less_by {A : Type} (f : A -> nat) (a b : A) : bool :=
  Nat.ltb (f a) (f b).

(** The loop of [std::max_element(first, last, comp)]: [largest] is only
    replaced when [comp largest x] holds, so the first of several greatest
    elements is the one returned. *)
Fixpoint max_element_from {A : Type} (comp : A -> A -> bool)
    (largest : A) (rest : list A) : A :=
  match rest with
  | [] => largest
  | x :: rest' =>
      max_element_from comp (if comp largest x then x else largest) rest'
  end.

(** [std::max_element(first, last, comp)]: the element the returned
    iterator points at, [None] when the algorithm returns [last] for an
    empty range. *)
Definition max_element {A : Type} (comp : A -> A -> bool)
    (range : list A) : option A :=
  match range with
  | [] => None
  | x :: rest => Some (max_element_from comp x rest)
  end.

End Std.

(** ** CharacterBasedSmoothingFilter *)

Module Smoothing.

Import Std.

Definition NUL : ascii := Ascii.zero.
Definition SPACE : ascii := " "%char.

Record CharacterBasedSmoothingFilter : Type := mkFilter {
  word_length : nat;
  window_size : nat;
  readings : list (list ascii)
}.

(** The constructor: [readings(word_length_, std::deque<char>(window_size_))]
    builds [word_length_] deques of [window_size_] value-initialised
    characters each. *)
Definition new_filter (word_length_ window_size_ : nat)
    : CharacterBasedSmoothingFilter :=
  {| word_length := word_length_;
     window_size := window_size_;
     readings := replicate word_length_ (replicate window_size_ NUL) |}.

(** Lines 238-246: the copy of [inWord] brought to [word_length]. *)
Definition normalize (word_length : nat) (inWord : list ascii) : list ascii :=
  let word := inWord in
  if Nat.eqb (length word) word_length then word
  else
    let word :=
      if Nat.ltb word_length (length word) then take word_length word
      else word in
    let word :=
      if Nat.ltb (length word) word_length
      then word ++ replicate (word_length - length word) SPACE
      else word in
    word.

(** Lines 250-253: [push_back] followed by the guarded [pop_front]. *)
Definition push_reading (window_size : nat) (dq : list ascii) (c : ascii)
    : list ascii :=
  let dq := dq ++ [c] in
  if Nat.ltb window_size (length dq) then drop 1 dq else dq.

(** Lines 254-260: the window copied into a [std::string] and the
    dereferenced [std::max_element] with the occurrence-count comparator.
    For an empty window (a window size of 0) the iterator returned is
    [window.end()], where the string keeps its terminator: the character
    read is NUL. *)
Definition most_common_char (window : list ascii) : ascii :=
  match max_element (less_by (count window)) window with
  | Some c => c
  | None => NUL
  end.

(** Lines 249-262: the [for] loop, [todo] iterations left starting at
    index [i].  There is no result when [readings] or [word] has no element
    [i]. *)
Fixpoint add_reading_loop (todo i : nat) (window_size : nat)
    (word : list ascii) (readings : list (list ascii))
    (smoothed_word : list ascii)
    : option (list ascii * list (list ascii)) :=
  match todo with
  | O => Some (smoothed_word, readings)
  | S todo' =>
      match readings !! i, word !! i with
      | Some dq, Some c =>
          let window := push_reading window_size dq c in
          let most_common := most_common_char window in
          add_reading_loop todo' (S i) window_size word
            (<[i := window]> readings) (smoothed_word ++ [most_common])
      | _, _ => None
      end
  end.

(** [CharacterBasedSmoothingFilter::add_reading]: the smoothed word and the
    filter after the call. *)
Definition add_reading (f : CharacterBasedSmoothingFilter)
    (inWord : list ascii)
    : option (list ascii * CharacterBasedSmoothingFilter) :=
  let word := normalize (word_length f) inWord in
  match add_reading_loop (word_length f) 0 (window_size f) word
          (readings f) [] with
  | Some (smoothed_word, readings') =>
      Some (smoothed_word,
            {| word_length := word_length f;
               window_size := window_size f;
               readings := readings' |})
  | None => None
  end.

(** A run of calls on one filter: the outputs in call order and the final
    filter. *)
Fixpoint feed (f : CharacterBasedSmoothingFilter) (words : list (list ascii))
    : option (list (list ascii) * CharacterBasedSmoothingFilter) :=
  match words with
  | [] => Some ([], f)
  | w :: rest =>
      match add_reading f w with
      | Some (out, f') =>
          match feed f' rest with
          | Some (outs, f'') => Some (out :: outs, f'')
          | None => None
          end
      | None => None
      end
  end.

(** [c] is the character of [window] that a majority vote with the
    earliest-first tie-break selects: it occurs in [window], every character
    in front of that occurrence occurs strictly less often, and no character
    occurs more often. *)
Definition earliest_most_common (window : list ascii) (c : ascii) : Prop :=
  exists pre post,
    window = pre ++ c :: post /\
    (forall y, y ∈ pre -> count window y < count window c) /\
    (forall y, y ∈ window -> count window y <= count window c).

(** [out] holds, position by position, the character selected from each of
    [windows]. *)
Definition votes (windows : list (list ascii)) (out : list ascii) : Prop :=
  Forall2 (fun window c => most_common_char window = c) windows out.

(** The output of the last call of a run. *)
Definition last_output (f : CharacterBasedSmoothingFilter)
    (words : list (list ascii)) : option (list ascii) :=
  match feed f words with
  | Some (outs, _) => last outs
  | None => None
  end.

(** What the constructor establishes and every call keeps: one window per
    position, each holding [window_size] characters. *)
Definition wf (f : CharacterBasedSmoothingFilter) : Prop :=
  length (readings f) = word_length f /\
  Forall (fun dq => length dq = window_size f) (readings f).

End Smoothing.

(** ** Images, the external collaborators and the filter instance *)

Module Cv.

Local Open Scope Z_scope.

(** [cv::Mat], reduced to its geometry and a flat payload. *)
Record Mat : Type := mkMat {
  rows : Z;
  cols : Z;
  channels : Z;
  data : list Z
}.

(** [cv::Mat()]. *)
Definition Mat_default : Mat :=
  {| rows := 0; cols := 0; channels := 0; data := [] |}.

(** [Mat::empty()]: [data == 0 || total() == 0]. *)
Definition empty (m : Mat) : bool :=
  match data m with
  | [] => true
  | _ => rows m * cols m =? 0
  end.

(** [Mat::clone()] is a deep copy; values have no identity here. *)
Definition clone (m : Mat) : Mat := m.

(** [cv::Size] as (width, height) and [Mat::size()]. *)
Definition Size : Type := (Z * Z)%type.
Definition width (s : Size) : Z := fst s.
Definition height (s : Size) : Z := snd s.
Definition size (m : Mat) : Size := (cols m, rows m).
Definition Size_eqb (a b : Size) : bool :=
  (width a =? width b) && (height a =? height b).

Record Rect : Type := mkRect {
  x : Z;
  y : Z;
  rect_width : Z;
  rect_height : Z
}.

(** [cv::Mat(rows, cols, CV_8UC4, cv::Scalar(b, g, r, a))]. *)
Definition Mat_filled (rows_ cols_ : Z) (scalar : list Z) : Mat :=
  {| rows := rows_; cols := cols_; channels := 4;
     data := concat (replicate (Z.to_nat (rows_ * cols_)) scalar) |}.

Definition THRESH_BINARY : Z := 0.
Definition THRESH_OTSU : Z := 8.
Definition THRESH_TRIANGLE : Z := 16.
Definition ADAPTIVE_THRESH_MEAN_C : Z := 0.
Definition ADAPTIVE_THRESH_GAUSSIAN_C : Z := 1.
Definition MORPH_RECT : Z := 0.

Inductive ColorConversionCode : Type :=
| COLOR_BGRA2GRAY
| COLOR_GRAY2BGRA.

End Cv.

(** How a step of the worker ends: with a value, with a [std::exception]
    propagating to the enclosing handler, or without defined behaviour. *)
Inductive outcome (A : Type) : Type :=
| Normal (a : A)
| Raised
| Undefined.

Arguments Normal {A} a.
Arguments Raised {A}.
Arguments Undefined {A}.

(** The image-processing primitives, specified by their signature only. *)
Class OpenCV : Type := {
  absdiff : Cv.Mat -> Cv.Mat -> outcome Cv.Mat;
  cvtColor : Cv.Mat -> Cv.ColorConversionCode -> outcome Cv.Mat;
  countNonZero : Cv.Mat -> outcome Z;
  threshold : Cv.Mat -> Z -> Z -> Z -> outcome Cv.Mat;
  adaptiveThreshold : Cv.Mat -> Z -> Z -> Z -> Z -> Z -> outcome Cv.Mat;
  getStructuringElement : Z -> Cv.Size -> Cv.Mat;
  dilate : Cv.Mat -> Cv.Mat -> Z -> outcome Cv.Mat;
  resize : Cv.Mat -> spec_float -> spec_float -> outcome Cv.Mat;
  rectangle : Cv.Mat -> Cv.Rect -> list Z -> Z -> outcome Cv.Mat
}.

Module Tess.

Inductive PageIteratorLevel : Type :=
| RIL_WORD
| RIL_SYMBOL.

Definition PSM_SINGLE_CHAR : Z := 10%Z.

(** One position of a [tesseract::ResultIterator]: what [Empty],
    [Confidence], [BoundingBox] and [GetUTF8Text] answer there.  The
    confidence is the rational number the returned [float] denotes. *)
Record Element : Type := mkElement {
  Empty : bool;
  Confidence : Q;
  left : Z;
  top : Z;
  right : Z;
  bottom : Z;
  GetUTF8Text : list ascii
}.

(** An iterator, for each level: the position it stands on and the
    positions the successive [Next(level)] calls reach. *)
Definition ResultIterator : Type := PageIteratorLevel -> Element * list Element.

(** [tesseract::TessBaseAPI], reduced to the image given to [SetImage]. *)
Record TessBaseAPI : Type := mkTessBaseAPI {
  image : Cv.Mat
}.

End Tess.

(** The recognition backend, specified by its signature only. *)
Class Tesseract : Type := {
  (** [GetUTF8Text()]; [None] is the null pointer. *)
  GetUTF8Text : Tess.TessBaseAPI -> option (list ascii);
  MeanTextConf : Tess.TessBaseAPI -> Z;
  (** [GetIterator()]; [None] is the null pointer. *)
  GetIterator : Tess.TessBaseAPI -> option Tess.ResultIterator
}.

(** Modelled from the spec: the image-sink modes of consts.h, which is not
    part of the sources: mask, text overlay, text overlay with background. *)
Inductive output_image_option_t : Type :=
| OUTPUT_IMAGE_OPTION_DETECTION_MASK
| OUTPUT_IMAGE_OPTION_TEXT_OVERLAY
| OUTPUT_IMAGE_OPTION_TEXT_BACKGROUND.

(** [OCRBox]: a rectangle and its text. *)
Record OCRBox : Type := mkOCRBox {
  box : Cv.Rect;
  text : list ascii
}.

(** The host functions the worker calls (obs-utils.h, text-render-helper.h,
    inja), specified by their signature only. *)
Class Host : Type := {
  is_valid_output_source_name : list ascii -> bool;
  render_boxes_with_qtextdocument :
    list OCRBox -> Z -> Z -> bool -> outcome Cv.Mat;
  (** [env.render(template, {"output": text})]. *)
  inja_render : list ascii -> list ascii -> outcome (list ascii)
}.

(** Modelled from the spec: the fields of [filter_data] (filter-data.h is
    not part of the sources) that the worker only reads, the spec's
    PipelineConfig. *)
Record PipelineConfig : Type := mkConfig {
  update_timer_ms : Z;
  update_on_change : bool;
  update_on_change_threshold : Z;
  binarizationMode : Z;
  binarizationThreshold : Z;
  binarizationBlockSize : Z;
  dilationIterations : Z;
  previewBinarization : bool;
  rescaleImage : bool;
  rescaleTargetSize : Z;
  conf_threshold : Z;
  pageSegmentationMode : Z;
  enable_smoothing : bool;
  output_source_name : list ascii;
  output_image_source_name : list ascii;
  output_image_option : output_image_option_t;
  output_format_template : list ascii
}.

(** Modelled from the spec: [filter_data], the settings and the state the
    worker shares or owns. *)
Record filter_data : Type := mkFilterData {
  config : PipelineConfig;
  tesseract_thread_run : bool;
  inputBGRA : Cv.Mat;
  lastInputBGRA : Cv.Mat;
  outputPreviewBGRA : Cv.Mat;
  tesseract_model : Tess.TessBaseAPI;
  (** [std::unique_ptr]; [None] is the null pointer. *)
  smoothing_filter : option Smoothing.CharacterBasedSmoothingFilter
}.

Definition set_lastInputBGRA (m : Cv.Mat) (tf : filter_data) : filter_data :=
  {| config := config tf;
     tesseract_thread_run := tesseract_thread_run tf;
     inputBGRA := inputBGRA tf;
     lastInputBGRA := m;
     outputPreviewBGRA := outputPreviewBGRA tf;
     tesseract_model := tesseract_model tf;
     smoothing_filter := smoothing_filter tf |}.

Definition set_outputPreviewBGRA (m : Cv.Mat) (tf : filter_data)
    : filter_data :=
  {| config := config tf;
     tesseract_thread_run := tesseract_thread_run tf;
     inputBGRA := inputBGRA tf;
     lastInputBGRA := lastInputBGRA tf;
     outputPreviewBGRA := m;
     tesseract_model := tesseract_model tf;
     smoothing_filter := smoothing_filter tf |}.

Definition set_tesseract_model (api : Tess.TessBaseAPI) (tf : filter_data)
    : filter_data :=
  {| config := config tf;
     tesseract_thread_run := tesseract_thread_run tf;
     inputBGRA := inputBGRA tf;
     lastInputBGRA := lastInputBGRA tf;
     outputPreviewBGRA := outputPreviewBGRA tf;
     tesseract_model := api;
     smoothing_filter := smoothing_filter tf |}.

Definition set_smoothing_filter
    (f : option Smoothing.CharacterBasedSmoothingFilter) (tf : filter_data)
    : filter_data :=
  {| config := config tf;
     tesseract_thread_run := tesseract_thread_run tf;
     inputBGRA := inputBGRA tf;
     lastInputBGRA := lastInputBGRA tf;
     outputPreviewBGRA := outputPreviewBGRA tf;
     tesseract_model := tesseract_model tf;
     smoothing_filter := f |}.

Definition set_tesseract_thread_run (b : bool) (tf : filter_data)
    : filter_data :=
  {| config := config tf;
     tesseract_thread_run := b;
     inputBGRA := inputBGRA tf;
     lastInputBGRA := lastInputBGRA tf;
     outputPreviewBGRA := outputPreviewBGRA tf;
     tesseract_model := tesseract_model tf;
     smoothing_filter := smoothing_filter tf |}.

(** ** Region extraction *)

Module Regions.

Local Open Scope Z_scope.

(** [(int)conf] for a confidence: truncation towards zero. *)
Definition int_of_conf (conf : Q) : Z := Z.quot (Qnum conf) (Z.pos (Qden conf)).

(** Lines 191-194. *)
Definition iteration_level (tf : filter_data) : Tess.PageIteratorLevel :=
  if pageSegmentationMode (config tf) =? Tess.PSM_SINGLE_CHAR
  then Tess.RIL_SYMBOL else Tess.RIL_WORD.

(** Line 216: [(right - left) * (bottom - top)]. *)
Definition box_area (e : Tess.Element) : Z :=
  Int.mul (Int.sub (Tess.right e) (Tess.left e))
          (Int.sub (Tess.bottom e) (Tess.top e)).

(** Line 218, right-hand side: [(imageSize.width * imageSize.height) / 2]. *)
Definition half_image_area (imageSize : Cv.Size) : Z :=
  Int.div (Int.mul (Cv.width imageSize) (Cv.height imageSize)) 2.

(** Lines 208-214: the box built for the current position. *)
Definition box_of (e : Tess.Element) : OCRBox :=
  {| box := {| Cv.x := Tess.left e;
               Cv.y := Tess.top e;
               Cv.rect_width := Int.sub (Tess.right e) (Tess.left e);
               Cv.rect_height := Int.sub (Tess.bottom e) (Tess.top e) |};
     text := Tess.GetUTF8Text e |}.

(** Lines 197-221: one pass through the body of the [do]-[while]; each
    [continue] leaves [boxes] as it is. *)
Definition loop_body (tf : filter_data) (level : Tess.PageIteratorLevel)
    (imageSize : Cv.Size) (e : Tess.Element) (boxes : list OCRBox)
    : list OCRBox :=
  if Tess.Empty e then boxes
  else
    let low_confidence :=
      match level with
      | Tess.RIL_WORD =>
          int_of_conf (Tess.Confidence e) <? conf_threshold (config tf)
      | Tess.RIL_SYMBOL => false
      end in
    if low_confidence then boxes
    else
      let box := box_of e in
      let area := box_area e in
      if (area <? 100) || (half_image_area imageSize <? area) then boxes
      else boxes ++ [box].

(** Lines 196-222: the body runs for the current position, then for every
    position [Next(level)] reaches. *)
Fixpoint do_while (tf : filter_data) (level : Tess.PageIteratorLevel)
    (imageSize : Cv.Size) (current : Tess.Element) (next : list Tess.Element)
    (boxes : list OCRBox) : list OCRBox :=
  let boxes := loop_body tf level imageSize current boxes in
  match next with
  | [] => boxes
  | e :: next' => do_while tf level imageSize e next' boxes
  end.

Definition extract_text_detection_boxes `{Tesseract} (tf : filter_data)
    (imageSize : Cv.Size) : list OCRBox :=
  match GetIterator (tesseract_model tf) with
  | None => []
  | Some ri =>
      let level := iteration_level tf in
      let '(current, next) := ri level in
      do_while tf level imageSize current next []
  end.

(** The positions the loop of [extract_text_detection_boxes] visits. *)
Definition visited `{Tesseract} (tf : filter_data) : list Tess.Element :=
  match GetIterator (tesseract_model tf) with
  | None => []
  | Some ri => let '(current, next) := ri (iteration_level tf) in current :: next
  end.

(** The region filter in the spec's words: the region is not empty, a word
    region has a truncated confidence of at least the threshold, and the
    area lies in [100, imageArea / 2]. *)
Definition kept (tf : filter_data) (level : Tess.PageIteratorLevel)
    (imageSize : Cv.Size) (e : Tess.Element) : bool :=
  negb (Tess.Empty e) &&
  match level with
  | Tess.RIL_WORD =>
      conf_threshold (config tf) <=? int_of_conf (Tess.Confidence e)
  | Tess.RIL_SYMBOL => true
  end &&
  (100 <=? box_area e) && (box_area e <=? half_image_area imageSize).

(** The area of a box, as the rectangle stores it. *)
Definition rect_area (b : OCRBox) : Z :=
  Int.mul (Cv.rect_width (box b)) (Cv.rect_height (box b)).

End Regions.

(** ** Recognition *)

Module Recognition.

Definition is_strip_char (c : ascii) : bool :=
  Ascii.eqb c " " || Ascii.eqb c "009" || Ascii.eqb c "010" || Ascii.eqb c "013".

(** [str.find_first_not_of(" \t\n\r")], searching from index [i]; [None] is
    [npos]. *)
Fixpoint find_first_not_of (str : list ascii) (i : nat) : option nat :=
  match str with
  | [] => None
  | c :: rest =>
      if is_strip_char c then find_first_not_of rest (S i) else Some i
  end.

(** [str.find_last_not_of(" \t\n\r")]. *)
Fixpoint find_last_not_of (str : list ascii) (i : nat) (found : option nat)
    : option nat :=
  match str with
  | [] => found
  | c :: rest =>
      find_last_not_of rest (S i) (if is_strip_char c then found else Some i)
  end.

(** [str.substr(pos, n)] for [pos <= str.length()]. *)
Definition substr (str : list ascii) (pos n : nat) : list ascii :=
  take n (drop pos str).

Definition strip (str : list ascii) : list ascii :=
  match find_first_not_of str 0, find_last_not_of str 0 None with
  | Some start, Some end_ => substr str start (end_ - start + 1)
  | _, _ => []
  end.

(** [run_tesseract_ocr]: the returned text and the filter instance after
    the call.  [Undefined] when smoothing is enabled and [add_reading] has
    no result or the filter pointer is null. *)
Definition run_tesseract_ocr `{Tesseract} (tf : filter_data)
    (image : Cv.Mat) : outcome (list ascii) * filter_data :=
  let tf := set_tesseract_model {| Tess.image := image |} tf in
  match GetUTF8Text (tesseract_model tf) with
  | None => (Normal [], tf)
  | Some text =>
      let recognitionResult := text in
      let confidence := MeanTextConf (tesseract_model tf) in
      if (confidence <? conf_threshold (config tf))%Z then (Normal [], tf)
      else
        let recognitionResult := strip recognitionResult in
        if enable_smoothing (config tf) then
          match smoothing_filter tf with
          | None => (Undefined, tf)
          | Some f =>
              match Smoothing.add_reading f recognitionResult with
              | None => (Undefined, tf)
              | Some (smoothed, f') =>
                  (Normal smoothed, set_smoothing_filter (Some f') tf)
              end
          end
        else (Normal recognitionResult, tf)
  end.

End Recognition.

(** ** The worker thread *)

Module Worker.

Local Open Scope Z_scope.

(** What the worker hands to the sinks and to the log, in order. *)
Inductive sink_event : Type :=
| setTextCallback (str : list ascii)
| setTextDetectionMaskCallback (mask : Cv.Mat)
| obs_log_error.

Record thread_state : Type := mkState {
  tf : filter_data;
  published : list sink_event
}.

(** Computations of the processing step: they read and update the filter
    instance, publish, and end as an [outcome]. *)
Definition Exec (A : Type) : Type := thread_state -> outcome A * thread_state.

Definition ret {A : Type} (a : A) : Exec A := fun s => (Normal a, s).

Definition bind {A B : Type} (m : Exec A) (k : A -> Exec B) : Exec B :=
  fun s =>
    match m s with
    | (Normal a, s') => k a s'
    | (Raised, s') => (Raised, s')
    | (Undefined, s') => (Undefined, s')
    end.

Notation "x <- m ;; k" := (bind m (fun x => k))
  (at level 100, m at level 99, k at level 200, right associativity).
Notation "m ;;; k" := (bind m (fun _ => k))
  (at level 100, k at level 200, right associativity).

Definition lift {A : Type} (o : outcome A) : Exec A := fun s => (o, s).
Definition get_tf : Exec filter_data := fun s => (Normal (tf s), s).
Definition modify_tf (g : filter_data -> filter_data) : Exec unit :=
  fun s => (Normal tt, {| tf := g (tf s); published := published s |}).
Definition publish (e : sink_event) : Exec unit :=
  fun s => (Normal tt, {| tf := tf s; published := published s ++ [e] |}).

(** Lines 333-336: [(int)((float)threshold / 100.0f * (float)(cols * rows))]. *)
Definition change_threshold_from_image_area (tf : filter_data)
    (imageBGRA : Cv.Mat) : option Z :=
  F32.to_int
    (F32.mul
       (F32.div (F32.of_int (update_on_change_threshold (config tf)))
                (F32.of_int 100))
       (F32.of_int (Int.mul (Cv.cols imageBGRA) (Cv.rows imageBGRA)))).

(** Lines 331-347: [true] when the [continue] of line 345 is taken. *)
Definition skip_processing `{OpenCV} (imageBGRA : Cv.Mat) : Exec bool :=
  tf <- get_tf ;;
  if update_on_change (config tf) &&
     Cv.Size_eqb (Cv.size imageBGRA) (Cv.size (lastInputBGRA tf))
  then
    match change_threshold_from_image_area tf imageBGRA with
    | None => lift Undefined
    | Some threshold_ =>
        diff <- lift (absdiff imageBGRA (lastInputBGRA tf)) ;;
        diff <- lift (cvtColor diff Cv.COLOR_BGRA2GRAY) ;;
        changed <- lift (countNonZero diff) ;;
        ret (changed <? threshold_)
    end
  else ret false.

(** Lines 353-386. *)
Definition binarize `{OpenCV} (imageForOCR : Cv.Mat) : Exec Cv.Mat :=
  tf <- get_tf ;;
  let mode := binarizationMode (config tf) in
  if mode =? 0 then ret imageForOCR
  else
    gray <- lift (cvtColor imageForOCR Cv.COLOR_BGRA2GRAY) ;;
    if mode =? 1 then
      lift (threshold gray (binarizationThreshold (config tf)) 255
              Cv.THRESH_BINARY)
    else if (mode =? 2) || (mode =? 3) then
      let block_size := binarizationBlockSize (config tf) in
      let block_size :=
        if Int.rem (binarizationBlockSize (config tf)) 2 =? 0
        then Int.add block_size 1 else block_size in
      if mode =? 2 then
        lift (adaptiveThreshold gray 255 Cv.ADAPTIVE_THRESH_MEAN_C
                Cv.THRESH_BINARY block_size 2)
      else
        lift (adaptiveThreshold gray 255 Cv.ADAPTIVE_THRESH_GAUSSIAN_C
                Cv.THRESH_BINARY block_size 2)
    else if mode =? 4 then
      lift (threshold gray 0 255 (Z.lor Cv.THRESH_BINARY Cv.THRESH_TRIANGLE))
    else if mode =? 5 then
      lift (threshold gray 0 255 (Z.lor Cv.THRESH_BINARY Cv.THRESH_OTSU))
    else ret imageForOCR.

(** Lines 388-393. *)
Definition dilate_step `{OpenCV} (imageForOCR : Cv.Mat) : Exec Cv.Mat :=
  tf <- get_tf ;;
  if 0 <? dilationIterations (config tf) then
    let element := getStructuringElement Cv.MORPH_RECT (3, 3) in
    lift (dilate imageForOCR element (dilationIterations (config tf)))
  else ret imageForOCR.

(** Lines 395-404. *)
Definition preview_step `{OpenCV} (imageForOCR : Cv.Mat) : Exec unit :=
  tf <- get_tf ;;
  if previewBinarization (config tf) then
    if Cv.channels imageForOCR =? 4 then
      modify_tf (set_outputPreviewBGRA imageForOCR)
    else
      bgra <- lift (cvtColor imageForOCR Cv.COLOR_GRAY2BGRA) ;;
      modify_tf (set_outputPreviewBGRA bgra)
  else ret tt.

(** Lines 406-413. *)
Definition rescale_step `{OpenCV} (imageForOCR : Cv.Mat) : Exec Cv.Mat :=
  tf <- get_tf ;;
  if rescaleImage (config tf) then
    let scale :=
      F32.div (F32.of_int (rescaleTargetSize (config tf)))
              (F32.of_int (Cv.rows imageForOCR)) in
    lift (resize imageForOCR scale scale)
  else ret imageForOCR.

(** Line 416. *)
Definition recognize_step `{Tesseract} (imageForOCR : Cv.Mat)
    : Exec (list ascii) :=
  fun s =>
    let '(r, tf') := Recognition.run_tesseract_ocr (tf s) imageForOCR in
    (r, {| tf := tf'; published := published s |}).

(** Lines 433-437: one filled rectangle per box. *)
Fixpoint draw_boxes `{OpenCV} (output : Cv.Mat) (boxes : list OCRBox)
    : Exec Cv.Mat :=
  match boxes with
  | [] => ret output
  | b :: rest =>
      output <- lift (rectangle output (box b) [255; 255; 255; 255] (-1)) ;;
      draw_boxes output rest
  end.

(** Lines 418-454. *)
Definition detection_output_step `{OpenCV} `{Tesseract} `{Host}
    (imageBGRA : Cv.Mat) : Exec unit :=
  tf <- get_tf ;;
  if is_valid_output_source_name (output_image_source_name (config tf)) then
    let text_detection_output :=
      Cv.Mat_filled (Cv.rows imageBGRA) (Cv.cols imageBGRA) [0; 0; 0; 0] in
    let boxes :=
      Regions.extract_text_detection_boxes tf (Cv.size imageBGRA) in
    text_detection_output <-
      match output_image_option (config tf) with
      | OUTPUT_IMAGE_OPTION_DETECTION_MASK =>
          let text_detection_output :=
            Cv.Mat_filled (Cv.rows imageBGRA) (Cv.cols imageBGRA)
              [0; 0; 0; 255] in
          draw_boxes text_detection_output boxes
      | OUTPUT_IMAGE_OPTION_TEXT_OVERLAY =>
          lift (render_boxes_with_qtextdocument boxes (Cv.cols imageBGRA)
                  (Cv.rows imageBGRA) false)
      | OUTPUT_IMAGE_OPTION_TEXT_BACKGROUND =>
          lift (render_boxes_with_qtextdocument boxes (Cv.cols imageBGRA)
                  (Cv.rows imageBGRA) true)
      end ;;
    publish (setTextDetectionMaskCallback text_detection_output)
  else ret tt.

(** [format_text_with_template]: the template rendered with the text as
    its [output]. *)
Definition format_text_with_template `{Host} (text_ : list ascii)
    (tf : filter_data) : outcome (list ascii) :=
  inja_render (output_format_template (config tf)) text_.

(** Lines 456-461. *)
Definition text_output_step `{Host} (ocr_result : list ascii) : Exec unit :=
  tf <- get_tf ;;
  if negb (Nat.eqb (length ocr_result) 0) &&
     is_valid_output_source_name (output_source_name (config tf))
  then
    ocr_result <- lift (format_text_with_template ocr_result tf) ;;
    publish (setTextCallback ocr_result)
  else ret tt.

(** How control leaves the [try] block. *)
Inductive body_exit : Type :=
| ContinueStatement
| FallThrough.

(** Lines 415-461: recognition, then the image sink, then the text sink. *)
Definition recognize_and_publish `{OpenCV} `{Tesseract} `{Host}
    (imageBGRA imageForOCR : Cv.Mat) : Exec body_exit :=
  ocr_result <- recognize_step imageForOCR ;;
  detection_output_step imageBGRA ;;;
  text_output_step ocr_result ;;;
  ret FallThrough.

(** Lines 348-461: what happens to a frame that passed the change check. *)
Definition process_changed_frame `{OpenCV} `{Tesseract} `{Host}
    (imageBGRA : Cv.Mat) : Exec body_exit :=
  modify_tf (set_lastInputBGRA (Cv.clone imageBGRA)) ;;;
  let imageForOCR := Cv.clone imageBGRA in
  imageForOCR <- binarize imageForOCR ;;
  imageForOCR <- dilate_step imageForOCR ;;
  preview_step imageForOCR ;;;
  imageForOCR <- rescale_step imageForOCR ;;
  recognize_and_publish imageBGRA imageForOCR.

(** Lines 328-461: the body of the [try] block. *)
Definition process_frame `{OpenCV} `{Tesseract} `{Host}
    (imageBGRA : Cv.Mat) : Exec body_exit :=
  skip <- skip_processing imageBGRA ;;
  if skip then ret ContinueStatement else process_changed_frame imageBGRA.

(** Lines 327 and 462-464: the handler logs and control falls through. *)
Definition try_catch (body : Exec body_exit)
    : thread_state -> option body_exit * thread_state :=
  fun s =>
    match body s with
    | (Normal e, s') => (Some e, s')
    | (Raised, s') =>
        (Some FallThrough,
         {| tf := tf s'; published := published s' ++ [obs_log_error] |})
    | (Undefined, s') => (None, s')
    end.

(** What one pass through the loop body observes of the other threads and
    of the clock. *)
Record iteration_input : Type := mkInput {
  (** whether [std::try_to_lock] obtained [inputBGRALock] *)
  owns_lock : bool;
  request_start_time_ns : Z;
  request_end_time_ns : Z
}.

(** How one pass through the loop body ends. *)
Inductive iteration_exit : Type :=
| Break
| Continue
| Slept (sleep_time_ms : Z)
| NoSleep
| NoBehaviour.

(** Lines 318-324: the private copy of the shared frame, left empty when
    the lock was not obtained. *)
Definition snapshot (inp : iteration_input) (s : thread_state) : Cv.Mat :=
  if owns_lock inp then Cv.clone (inputBGRA (tf s)) else Cv.Mat_default.

(** The spec's LastFrameCache. *)
Definition LastFrameCache (s : thread_state) : Cv.Mat := lastInputBGRA (tf s).

(** Lines 468-471, on [uint64_t] and [int64_t]. *)
Definition sleep_time_ms (tf : filter_data) (inp : iteration_input) : Z :=
  let request_time_ns :=
    (request_end_time_ns inp - request_start_time_ns inp) mod 2 ^ 64 in
  update_timer_ms (config tf) - request_time_ns / 1000000.

(** Lines 307-477: one pass through the body of [while (true)].  [Continue]
    is the [continue] of line 345, which transfers control to the loop head;
    [Slept] and [NoSleep] are the two ways through lines 467-477. *)
Definition loop_iteration `{OpenCV} `{Tesseract} `{Host}
    (inp : iteration_input) (s : thread_state)
    : iteration_exit * thread_state :=
  if negb (tesseract_thread_run (tf s)) then (Break, s)
  else
    let imageBGRA := snapshot inp s in
    let '(exit, s) :=
      if negb (Cv.empty imageBGRA) then try_catch (process_frame imageBGRA) s
      else (Some FallThrough, s) in
    match exit with
    | None => (NoBehaviour, s)
    | Some ContinueStatement => (Continue, s)
    | Some FallThrough =>
        let sleep_time := sleep_time_ms (tf s) inp in
        if 0 <? sleep_time then (Slept sleep_time, s) else (NoSleep, s)
    end.

(** Lines 306-478: the passes through the loop body, one per element of
    [schedule]; before each pass the other threads may have changed the
    filter instance.  The loop ends at the first [break]. *)
Fixpoint while_true `{OpenCV} `{Tesseract} `{Host}
    (schedule : list ((filter_data -> filter_data) * iteration_input))
    (s : thread_state) : list iteration_exit * thread_state :=
  match schedule with
  | [] => ([], s)
  | (others, inp) :: rest =>
      let s := {| tf := others (tf s); published := published s |} in
      match loop_iteration inp s with
      | (Break, s') => ([Break], s')
      | (NoBehaviour, s') => ([NoBehaviour], s')
      | (exit, s') =>
          let '(exits, s'') := while_true rest s' in (exit :: exits, s'')
      end
  end.

(** [tesseract_thread]: the run flag is set, the loop runs, the run flag is
    cleared. *)
Definition tesseract_thread `{OpenCV} `{Tesseract} `{Host}
    (schedule : list ((filter_data -> filter_data) * iteration_input))
    (s : thread_state) : list iteration_exit * thread_state :=
  let s :=
    {| tf := set_tesseract_thread_run true (tf s);
       published := published s |} in
  let '(exits, s) := while_true schedule s in
  (exits,
   {| tf := set_tesseract_thread_run false (tf s);
      published := published s |}).

End Worker.

(** ** Stand-ins for the external collaborators

    Small executable instances of the three interfaces, used to run the
    worker on concrete frames. *)

Module Sim.

Local Open Scope Z_scope.

(** The gray value of one BGRA pixel, in OpenCV's 14-bit fixed point. *)
Fixpoint gray_of_bgra (channels : list Z) : list Z :=
  match channels with
  | b :: g :: r :: _ :: rest =>
      Z.shiftr (b * 1868 + g * 9617 + r * 4899 + 8192) 14 :: gray_of_bgra rest
  | _ => []
  end.

Definition with_data (m : Cv.Mat) (channels_ : Z) (data_ : list Z) : Cv.Mat :=
  {| Cv.rows := Cv.rows m; Cv.cols := Cv.cols m;
     Cv.channels := channels_; Cv.data := data_ |}.

#[local] Instance opencv : OpenCV := {|
  absdiff a b :=
    Normal (with_data a (Cv.channels a)
              (zip_with (fun p q => Z.abs (p - q)) (Cv.data a) (Cv.data b)));
  cvtColor m code :=
    match code with
    | Cv.COLOR_BGRA2GRAY => Normal (with_data m 1 (gray_of_bgra (Cv.data m)))
    | Cv.COLOR_GRAY2BGRA =>
        Normal (with_data m 4
                  (concat (map (fun g => [g; g; g; 255]) (Cv.data m))))
    end;
  countNonZero m :=
    Normal (Z.of_nat (length (filter (fun p => p <> 0) (Cv.data m))));
  threshold m thresh maxval _ :=
    Normal (with_data m (Cv.channels m)
              (map (fun p => if thresh <? p then maxval else 0) (Cv.data m)));
  adaptiveThreshold m _ _ _ _ _ := Normal m;
  getStructuringElement _ ksize :=
    Cv.mkMat (Cv.height ksize) (Cv.width ksize) 1
      (replicate (Z.to_nat (Cv.height ksize * Cv.width ksize)) 1);
  dilate m _ _ := Normal m;
  resize m _ _ := Normal m;
  rectangle m r _ _ :=
    Normal (with_data m (Cv.channels m)
              (Cv.data m ++
               [Cv.x r; Cv.y r; Cv.rect_width r; Cv.rect_height r]))
|}.

(** A backend that answers the same for every image. *)
Definition backend (text_ : option (list ascii)) (confidence : Z)
    (iterator : option Tess.ResultIterator) : Tesseract :=
  {| GetUTF8Text _ := text_;
     MeanTextConf _ := confidence;
     GetIterator _ := iterator |}.

#[local] Instance host : Host := {|
  is_valid_output_source_name name := negb (Nat.eqb (length name) 0);
  render_boxes_with_qtextdocument _ cols_ rows_ _ :=
    Normal (Cv.Mat_filled rows_ cols_ [0; 0; 0; 0]);
  inja_render _ text_ := Normal text_
|}.

(** A [cols_] x [rows_] BGRA frame with every channel equal to [v]. *)
Definition flat_frame (cols_ rows_ v : Z) : Cv.Mat :=
  Cv.Mat_filled rows_ cols_ [v; v; v; 255].

Definition settings (update_on_change_ : bool) (threshold_ conf_threshold_ : Z)
    (mask_sink : list ascii) : PipelineConfig :=
  {| update_timer_ms := 100;
     update_on_change := update_on_change_;
     update_on_change_threshold := threshold_;
     binarizationMode := 0;
     binarizationThreshold := 127;
     binarizationBlockSize := 8;
     dilationIterations := 0;
     previewBinarization := false;
     rescaleImage := false;
     rescaleTargetSize := 35;
     conf_threshold := conf_threshold_;
     pageSegmentationMode := 3;
     enable_smoothing := true;
     output_source_name := ["t"%char];
     output_image_source_name := mask_sink;
     output_image_option := OUTPUT_IMAGE_OPTION_DETECTION_MASK;
     output_format_template := [] |}.

Definition instance_ (cfg : PipelineConfig) (input last : Cv.Mat)
    : filter_data :=
  {| config := cfg;
     tesseract_thread_run := true;
     inputBGRA := input;
     lastInputBGRA := last;
     outputPreviewBGRA := Cv.Mat_default;
     tesseract_model := {| Tess.image := Cv.Mat_default |};
     smoothing_filter := Some (Smoothing.new_filter 2 1) |}.

Definition word_element (conf : Q) (l t r b : Z) : Tess.Element :=
  {| Tess.Empty := false; Tess.Confidence := conf;
     Tess.left := l; Tess.top := t; Tess.right := r; Tess.bottom := b;
     Tess.GetUTF8Text := ["w"%char] |}.

(** Five word regions of a 100 x 100 image: areas 400, 50, 400 (with a low
    confidence), 5000 and 5100. *)
Definition sample_iterator : Tess.ResultIterator :=
  fun _ =>
    (word_element (80 # 1) 10 10 30 30,
     [word_element (80 # 1) 0 0 5 10;
      word_element (50 # 1) 10 10 30 30;
      word_element (70 # 1) 0 0 100 50;
      word_element (70 # 1) 0 0 100 51]).

(** A worker about to start a pass: the shared frame is [input], the cache
    is [last]. *)
Definition state (cfg : PipelineConfig) (input last : Cv.Mat)
    : Worker.thread_state :=
  {| Worker.tf := instance_ cfg input last; Worker.published := [] |}.

(** A pass that obtained the lock and took 5 ms. *)
Definition pass : Worker.iteration_input :=
  {| Worker.owns_lock := true;
     Worker.request_start_time_ns := 1000;
     Worker.request_end_time_ns := 5001000 |}.

End Sim.

From stdpp Require Import gmap strings.

(** ** Configuration files, initialisation and shutdown *)

Module Lifecycle.

Local Open Scope string_scope.

(** The functions of the host and of the backend that initialisation and
    cleanup call, specified by their signature only.  The files of the
    module's configuration folder are a map from path to contents. *)
Class ObsModule : Type := {
  obs_module_config_path : string -> string;
  check_plugin_config_folder_exists : gmap string string -> gmap string string;
  (** [TessBaseAPI::Init(datapath, language, OEM_LSTM_ONLY, configs, ...)]:
      its return value, given the files it can read. *)
  Init : string -> string -> list string -> gmap string string -> Z
}.

(** [std::filesystem::remove] on the path of a file: a missing file is not
    an error. *)
Definition remove (path : string) (files : gmap string string)
    : gmap string string :=
  delete path files.

(** [std::ofstream f(path); f << contents; f.close();]. *)
Definition write_file (path contents : string) (files : gmap string string)
    : gmap string string :=
  <[path := contents]> files.

(** Lines 30-48. *)
Definition cleanup_config_files `{ObsModule} (unique_id : string)
    (files : gmap string string) : gmap string string :=
  let files := check_plugin_config_folder_exists files in
  let filename := "user-patterns-" +:+ unique_id +:+ ".txt" in
  let user_patterns_filepath := obs_module_config_path filename in
  let files := remove user_patterns_filepath files in
  let filename := "user-patterns" +:+ unique_id +:+ ".config" in
  let patterns_config_filepath := obs_module_config_path filename in
  let files := remove patterns_config_filepath files in
  let filename := unique_id +:+ ".png" in
  let mask_filepath := obs_module_config_path filename in
  remove mask_filepath files.

Inductive log_entry : Type :=
| LOG_INFO (message : string)
| LOG_ERROR (message : string).

(** Modelled from the spec: the fields of [filter_data] (filter-data.h is
    not part of the sources) that only initialisation reads. *)
Record init_settings : Type := mkInitSettings {
  unique_id : string;
  user_patterns : string;
  tesseractTraineddataFilepath : string;
  language : string;
  char_whitelist : string;
  word_length : nat;
  window_size : nat
}.

(** The object behind [tf->tesseract_model]: whether [Init] succeeded, the
    configs it was given, and the two settings applied to it. *)
Record model_state : Type := mkModel {
  loaded : bool;
  configs : list string;
  PageSegMode : option Z;
  tessedit_char_whitelist : option string
}.

(** The filter instance with everything initialisation touches: the
    pointer [tf->tesseract_model] ([None] is the null pointer), whether
    [tf->tesseract_thread] is joinable, the files and the log. *)
Record plugin : Type := mkPlugin {
  tf : filter_data;
  ini : init_settings;
  model : option model_state;
  thread_joinable : bool;
  files : gmap string string;
  log : list log_entry
}.

Definition set_tf (v : filter_data) (p : plugin) : plugin :=
  {| tf := v; ini := ini p; model := model p;
     thread_joinable := thread_joinable p; files := files p; log := log p |}.

Definition set_model (v : option model_state) (p : plugin) : plugin :=
  {| tf := tf p; ini := ini p; model := v;
     thread_joinable := thread_joinable p; files := files p; log := log p |}.

Definition set_thread_joinable (v : bool) (p : plugin) : plugin :=
  {| tf := tf p; ini := ini p; model := model p;
     thread_joinable := v; files := files p; log := log p |}.

Definition set_files (v : gmap string string) (p : plugin) : plugin :=
  {| tf := tf p; ini := ini p; model := model p;
     thread_joinable := thread_joinable p; files := v; log := log p |}.

Definition obs_log (e : log_entry) (p : plugin) : plugin :=
  {| tf := tf p; ini := ini p; model := model p;
     thread_joinable := thread_joinable p; files := files p;
     log := log p ++ [e] |}.

(** Lines 276-290: nothing happens when the run flag is clear; otherwise
    the flag is cleared, the worker is woken and, if joinable, joined. *)
Definition stop_and_join_tesseract_thread (p : plugin) : plugin :=
  if negb (tesseract_thread_run (tf p)) then p
  else
    let p := set_tf (set_tesseract_thread_run false (tf p)) p in
    if thread_joinable p then set_thread_joinable false p else p.

(** Lines 73-101: the two files written for non-empty user patterns, and
    the configs array handed to [Init]. *)
Definition save_user_patterns `{ObsModule} (p : plugin)
    : plugin * list string :=
  if negb (String.eqb (user_patterns (ini p)) EmptyString) then
    let p := set_files (check_plugin_config_folder_exists (files p)) p in
    let filename := "user-patterns-" +:+ unique_id (ini p) +:+ ".txt" in
    let user_patterns_filepath := obs_module_config_path filename in
    let p :=
      obs_log (LOG_INFO ("Saving user patterns to: " +:+ user_patterns_filepath))
        p in
    let p :=
      set_files (write_file user_patterns_filepath (user_patterns (ini p))
                   (files p)) p in
    let filename := "user-patterns" +:+ unique_id (ini p) +:+ ".config" in
    let patterns_config_filepath := obs_module_config_path filename in
    let p :=
      obs_log
        (LOG_INFO ("Saving user patterns config to: " +:+
                   patterns_config_filepath)) p in
    let p :=
      set_files
        (write_file patterns_config_filepath
           ("user_patterns_file " +:+ user_patterns_filepath +:+
            String "010"%char EmptyString)
           (files p)) p in
    (p, [patterns_config_filepath])
  else (p, []).

(** Lines 120-137, reached when nothing was thrown.  There is no result
    when the model pointer is null at line 121, and none when the handle
    swapped out at line 136 is still joinable (its destructor calls
    [std::terminate]). *)
Definition apply_settings_and_start (hard_tesseract_init_required : bool)
    (p : plugin) : option plugin :=
  match model p with
  | None => None
  | Some m =>
      let m :=
        {| loaded := loaded m; configs := configs m;
           PageSegMode := Some (pageSegmentationMode (config (tf p)));
           tessedit_char_whitelist := Some (char_whitelist (ini p)) |} in
      let p := set_model (Some m) p in
      let p :=
        if enable_smoothing (config (tf p)) then
          set_tf
            (set_smoothing_filter
               (Some (Smoothing.new_filter (word_length (ini p))
                        (window_size (ini p))))
               (tf p)) p
        else p in
      if hard_tesseract_init_required then
        if thread_joinable p then None
        else Some (set_thread_joinable true p)
      else Some p
  end.

(** Lines 53-60: a hard initialisation stops the worker and destroys the
    model. *)
Definition reset_backend (hard_tesseract_init_required : bool) (p : plugin)
    : plugin :=
  if hard_tesseract_init_required then
    let p := stop_and_join_tesseract_thread p in
    match model p with
    | Some _ => set_model None p
    | None => p
    end
  else p.

(** Lines 67-70. *)
Definition ensure_mask_folder `{ObsModule} `{Host} (p : plugin) : plugin :=
  if is_valid_output_source_name (output_image_source_name (config (tf p)))
  then set_files (check_plugin_config_folder_exists (files p)) p
  else p.

(** Lines 103-118: the new model and whether [Init] failed, in which case
    line 116 throws. *)
Definition load_model `{ObsModule} (configs_ : list string) (p : plugin)
    : plugin * bool :=
  let p :=
    obs_log
      (LOG_INFO ("Loading tesseract model from: " +:+
                 tesseractTraineddataFilepath (ini p))) p in
  let retval :=
    Init (tesseractTraineddataFilepath (ini p)) (language (ini p)) configs_
      (files p) in
  let p :=
    set_model
      (Some {| loaded := Z.eqb retval 0; configs := configs_;
               PageSegMode := None; tessedit_char_whitelist := None |}) p in
  (p, negb (Z.eqb retval 0)).

(** [initialize_tesseract_ocr], lines 50-142.  What line 116 throws is
    caught by the handler of lines 138-141, which logs and returns. *)
Definition initialize_tesseract_ocr `{ObsModule} `{Host}
    (hard_tesseract_init_required : bool) (p : plugin) : option plugin :=
  let p := reset_backend hard_tesseract_init_required p in
  let p := ensure_mask_folder p in
  let '(p, configs_) := save_user_patterns p in
  if hard_tesseract_init_required then
    let '(p, thrown) := load_model configs_ p in
    if thrown then
      Some (obs_log
              (LOG_ERROR ("Failed to load tesseract model: " +:+
                          "Failed to initialize tesseract model")) p)
    else apply_settings_and_start hard_tesseract_init_required p
  else apply_settings_and_start hard_tesseract_init_required p.

(** The worker's view of a plugin: its filter instance, nothing published
    yet. *)
Definition worker_state (p : plugin) : Worker.thread_state :=
  {| Worker.tf := tf p; Worker.published := [] |}.

End Lifecycle.

(** Stand-ins for the host functions of [Lifecycle]. *)
Module SimLifecycle.

Local Open Scope string_scope.

#[local] Instance obs : Lifecycle.ObsModule := {|
  Lifecycle.obs_module_config_path name := "/config/" +:+ name;
  Lifecycle.check_plugin_config_folder_exists files_ := files_;
  Lifecycle.Init datapath _ _ _ := if String.eqb datapath EmptyString then (-1)%Z else 0%Z
|}.

Definition settings (patterns datapath : string) : Lifecycle.init_settings :=
  {| Lifecycle.unique_id := "a1";
     Lifecycle.user_patterns := patterns;
     Lifecycle.tesseractTraineddataFilepath := datapath;
     Lifecycle.language := "eng";
     Lifecycle.char_whitelist := "0123456789";
     Lifecycle.word_length := 4;
     Lifecycle.window_size := 3 |}.

(** A plugin that was never initialised. *)
Definition fresh (patterns datapath : string) : Lifecycle.plugin :=
  {| Lifecycle.tf :=
       set_tesseract_thread_run false
         (Sim.instance_ (Sim.settings true 15 60 []) Cv.Mat_default
            Cv.Mat_default);
     Lifecycle.ini := settings patterns datapath;
     Lifecycle.model := None;
     Lifecycle.thread_joinable := false;
     Lifecycle.files := ∅;
     Lifecycle.log := [] |}.

End SimLifecycle.

(** ** What a pass of the worker shows to the outside *)

Module Observed.

Import Worker.

(** What the worker only reads of the filter instance: the settings, the
    shared input frame and the run flag. *)
Definition read_only (tf : filter_data) : PipelineConfig * Cv.Mat * bool :=
  (config tf, inputBGRA tf, tesseract_thread_run tf).

Definition is_text (e : sink_event) : bool :=
  match e with
  | setTextCallback _ => true
  | _ => false
  end.

Definition is_log (e : sink_event) : bool :=
  match e with
  | obs_log_error => true
  | _ => false
  end.

(** The sequences of sink and log events of one pass: at most one image,
    then at most one text, or a logged error in place of the text. *)
Definition pass_events (evs : list sink_event) : bool :=
  match evs with
  | [] => true
  | [setTextDetectionMaskCallback _] => true
  | [setTextCallback _] => true
  | [setTextDetectionMaskCallback _; setTextCallback _] => true
  | [obs_log_error] => true
  | [setTextDetectionMaskCallback _; obs_log_error] => true
  | _ => false
  end.

(** The backend holds a text whose mean confidence reaches the threshold. *)
Definition confident `{Tesseract} (tf : filter_data) : Prop :=
  is_Some (GetUTF8Text (tesseract_model tf)) /\
  (conf_threshold (config tf) <= MeanTextConf (tesseract_model tf))%Z.

(** A step that leaves the read-only part of the filter instance and the
    sinks as they are. *)
Definition quiet {A : Type} (m : Exec A) : Prop :=
  forall s, read_only (tf (snd (m s))) = read_only (tf s) /\
            published (snd (m s)) = published s.

(** What the [try] block may have done when it ends as [r], started in
    [s]: the read-only part is as before; the events added are those of a
    pass without a log entry, a text among them only when the block ran to
    its end, and only for a confident recognition. *)
Definition body_effect `{Tesseract} (s : thread_state)
    (r : outcome body_exit * thread_state) : Prop :=
  read_only (tf (snd r)) = read_only (tf s) /\
  exists evs,
    published (snd r) = published s ++ evs /\
    pass_events evs = true /\
    Forall (fun e => is_log e = false) evs /\
    (fst r <> Normal FallThrough -> Forall (fun e => is_text e = false) evs) /\
    (Exists (fun e => is_text e = true) evs -> confident (tf (snd r))).

End Observed.

(** Settings that select a binarisation mode and a block size. *)
Module SimMore.

Definition binarize_settings (mode block_size : Z) : PipelineConfig :=
  {| update_timer_ms := 100;
     update_on_change := false;
     update_on_change_threshold := 15;
     binarizationMode := mode;
     binarizationThreshold := 127;
     binarizationBlockSize := block_size;
     dilationIterations := 0;
     previewBinarization := false;
     rescaleImage := false;
     rescaleTargetSize := 35;
     conf_threshold := 60;
     pageSegmentationMode := 3;
     enable_smoothing := false;
     output_source_name := ["t"%char];
     output_image_source_name := [];
     output_image_option := OUTPUT_IMAGE_OPTION_DETECTION_MASK;
     output_format_template := [] |}.

End SimMore.

Module StdFacts.
Import Std.

Lemma count_app (l1 l2 : list ascii) (a : ascii) :
  count (l1 ++ l2) a = count l1 a + count l2 a.
Proof. induction l1 as [|x l1 IH]; simpl; [done | rewrite IH; lia]. Qed.

Lemma count_replicate_eq (n : nat) (a : ascii) : count (replicate n a) a = n.
Proof. induction n as [|n IH]; simpl; [done|]. rewrite Ascii.eqb_refl, IH. done. Qed.

Lemma count_replicate_ne (n : nat) (a b : ascii) :
  a <> b -> count (replicate n a) b = 0.
Proof.
  intros Hne. induction n as [|n IH]; simpl; [done|].
  destruct (Ascii.eqb_spec a b); [done | by rewrite IH].
Qed.

Lemma count_le_length (l : list ascii) (a : ascii) : count l a <= length l.
Proof. induction l as [|x l IH]; simpl; [done|]. destruct (Ascii.eqb x a); lia. Qed.

Lemma count_pos (l : list ascii) (a : ascii) : a ∈ l -> 0 < count l a.
Proof.
  induction 1 as [a l | a x l _ IH]; simpl.
  - rewrite Ascii.eqb_refl. lia.
  - lia.
Qed.

Section MaxElement.

Context {A : Type} (f : A -> nat).

Lemma max_element_from_first rest : forall pre0 largest post0,
  (forall y, y ∈ pre0 -> f y < f largest) ->
  (forall y, y ∈ post0 -> f y <= f largest) ->
  exists pre post,
    pre0 ++ largest :: post0 ++ rest
      = pre ++ max_element_from (less_by f) largest rest :: post /\
    (forall y, y ∈ pre -> f y < f (max_element_from (less_by f) largest rest)) /\
    (forall y, y ∈ post -> f y <= f (max_element_from (less_by f) largest rest)).
Proof.
  induction rest as [|x rest IH]; intros pre0 largest post0 Hpre Hpost; simpl.
  - exists pre0, post0. by rewrite app_nil_r.
  - destruct (less_by f largest x) eqn:E; unfold less_by in E.
    + apply Nat.ltb_lt in E.
      destruct (IH (pre0 ++ largest :: post0) x []) as (pre & post & Heq & H1 & H2).
      * intros y Hy. apply elem_of_app in Hy as [Hy | Hy].
        -- specialize (Hpre y Hy). lia.
        -- apply elem_of_cons in Hy as [-> | Hy]; [lia|].
           specialize (Hpost y Hy). lia.
      * intros y Hy. by apply elem_of_nil in Hy.
      * exists pre, post. split; [|done].
        rewrite <- Heq. by rewrite <- !app_assoc.
    + apply Nat.ltb_ge in E.
      destruct (IH pre0 largest (post0 ++ [x])) as (pre & post & Heq & H1 & H2).
      * done.
      * intros y Hy. apply elem_of_app in Hy as [Hy | Hy]; [by apply Hpost|].
        apply list_elem_of_singleton in Hy as ->. lia.
      * exists pre, post. split; [|done].
        rewrite <- Heq. by rewrite <- !app_assoc.
Qed.

End MaxElement.

End StdFacts.

Module SmoothingFacts.
Import Std StdFacts Smoothing.

Lemma most_common_char_spec (window : list ascii) :
  window <> [] -> earliest_most_common window (most_common_char window).
Proof.
  unfold most_common_char, max_element. destruct window as [|x rest]; [done|].
  intros _.
  destruct (max_element_from_first (count (x :: rest)) rest [] x [])
    as (pre & post & Heq & Hpre & Hpost).
  - intros y Hy. by apply elem_of_nil in Hy.
  - intros y Hy. by apply elem_of_nil in Hy.
  - set (m := max_element_from _ x rest) in *.
    change (x :: rest = pre ++ m :: post) in Heq. exists pre, post. split; [exact Heq|]. split; [exact Hpre|].
    intros y Hy. rewrite Heq in Hy.
    apply elem_of_app in Hy as [Hy | Hy]; [specialize (Hpre y Hy); lia|].
    apply elem_of_cons in Hy as [-> | Hy]; [lia | by apply Hpost].
Qed.

(** The vote over an empty window reads the terminator. *)
Lemma most_common_char_nil : most_common_char [] = NUL.
Proof. reflexivity. Qed.

Lemma earliest_most_common_elem (window : list ascii) (c : ascii) :
  earliest_most_common window c -> c ∈ window.
Proof.
  intros (pre & post & -> & _). apply elem_of_app. right. apply elem_of_cons. by left.
Qed.

(** A window made of a run of [a] followed by a run of [b]. *)
Lemma earliest_most_common_two_runs (n m : nat) (a b c : ascii) :
  a <> b -> 0 < n ->
  earliest_most_common (replicate n a ++ replicate m b) c ->
  c = if Nat.ltb n m then b else a.
Proof.
  intros Hne Hn (pre & post & Heq & Hpre & Hall).
  assert (Hca : count (replicate n a ++ replicate m b) a = n).
  { rewrite count_app, count_replicate_eq, count_replicate_ne by done. lia. }
  assert (Hcb : count (replicate n a ++ replicate m b) b = m).
  { rewrite count_app, count_replicate_eq, count_replicate_ne by done. lia. }
  assert (Hc : c = a \/ c = b /\ 0 < m).
  { assert (Hin : c ∈ replicate n a ++ replicate m b).
    { rewrite Heq. apply elem_of_app. right. apply elem_of_cons. by left. }
    apply elem_of_app in Hin as [Hin | Hin].
    - left. by apply elem_of_replicate_inv in Hin.
    - right. apply elem_of_replicate in Hin as [-> Hm]. split; [done | lia]. }
  destruct (Nat.ltb_spec n m) as [Hlt | Hge].
  - destruct Hc as [-> | [-> _]]; [|done].
    assert (Hb : b ∈ replicate n a ++ replicate m b).
    { apply elem_of_app. right. apply elem_of_replicate. split; [done | lia]. }
    specialize (Hall b Hb). lia.
  - destruct Hc as [-> | [-> Hm]]; [done|].
    (* the first character of the window is [a], in front of every [b] *)
    destruct pre as [|p pre].
    + destruct n as [|n]; [lia|]. simpl in Heq. by injection Heq as ->.
    + assert (p = a) as ->.
      { destruct n as [|n]; [lia|]. simpl in Heq. by injection Heq as ->. }
      assert (Ha : a ∈ a :: pre) by (apply elem_of_cons; by left).
      specialize (Hpre a Ha). lia.
Qed.

Lemma earliest_most_common_one_run (n : nat) (a c : ascii) :
  earliest_most_common (replicate n a) c -> c = a.
Proof.
  intros H. apply earliest_most_common_elem in H.
  by apply elem_of_replicate_inv in H.
Qed.

(** ** The window of one position *)

Lemma push_reading_nil (N : nat) (dq : list ascii) (c : ascii) :
  push_reading N dq c = [] -> N = 0.
Proof.
  unfold push_reading. rewrite length_app. simpl.
  destruct (Nat.ltb_spec N (length dq + 1)) as [Hlt | Hge].
  - intros Hnil. apply (f_equal length) in Hnil.
    rewrite length_drop, length_app in Hnil. simpl in Hnil. lia.
  - intros Hnil. by destruct dq.
Qed.

Lemma push_reading_full (N : nat) (dq : list ascii) (c : ascii) :
  length dq = N -> push_reading N dq c = drop 1 (dq ++ [c]).
Proof.
  intros Hlen. unfold push_reading. rewrite length_app. simpl.
  destruct (Nat.ltb_spec N (length dq + 1)); [done | lia].
Qed.

Lemma length_push_reading (N : nat) (dq : list ascii) (c : ascii) :
  length dq = N -> length (push_reading N dq c) = N.
Proof.
  intros Hlen. rewrite push_reading_full by done.
  rewrite length_drop, length_app. simpl. lia.
Qed.

Lemma last_push_reading (N : nat) (dq : list ascii) (c : ascii) :
  1 <= N -> last (push_reading N dq c) = Some c.
Proof.
  intros HN. unfold push_reading. rewrite length_app. simpl.
  destruct (Nat.ltb_spec N (length dq + 1)) as [Hlt | Hge].
  - destruct dq as [|d dq]; simpl in *; [lia|]. rewrite drop_0. apply last_snoc.
  - apply last_snoc.
Qed.

(** Pushing the same character again: the window after [k] pushes of [c]
    onto a full window [dq]. *)
Lemma push_reading_again (N k : nat) (dq : list ascii) (c : ascii) :
  1 <= N -> length dq = N ->
  push_reading N (drop k dq ++ replicate (min k N) c) c
    = drop (S k) dq ++ replicate (min (S k) N) c.
Proof.
  intros HN Hlen. rewrite push_reading_full.
  2:{ rewrite length_app, length_drop, length_replicate. lia. }
  destruct (Nat.lt_ge_cases k N) as [Hlt | Hge].
  - rewrite (Nat.min_l k N), (Nat.min_l (S k) N) by lia. rewrite <- !app_assoc.
    rewrite drop_app_le by (rewrite length_drop; lia).
    rewrite drop_drop. replace (k + 1) with (S k) by lia.
    by rewrite <- replicate_S_end.
  - rewrite (Nat.min_r k N), (Nat.min_r (S k) N) by lia.
    rewrite (drop_ge dq k), (drop_ge dq (S k)) by lia. simpl.
    rewrite <- replicate_S_end. simpl. by rewrite drop_0.
Qed.

(** ** The loop over the positions *)

Lemma normalize_length (W : nat) (w : list ascii) : length (normalize W w) = W.
Proof.
  unfold normalize. destruct (Nat.eqb_spec (length w) W) as [Heq | Hne]; [done|].
  destruct (Nat.ltb_spec W (length w)) as [Hlong | Hshort].
  - rewrite length_take, Nat.min_l by lia.
    destruct (Nat.ltb_spec W W); [lia | ].
    rewrite length_take. lia.
  - destruct (Nat.ltb_spec (length w) W); [|lia].
    rewrite length_app, length_replicate. lia.
Qed.

Lemma normalize_exact (W : nat) (w : list ascii) :
  length w = W -> normalize W w = w.
Proof. intros H. unfold normalize. by rewrite H, Nat.eqb_refl. Qed.

(** What a word looks like after normalisation, position by position. *)
Lemma normalize_lookup (W i : nat) (w : list ascii) :
  i < W ->
  normalize W w !! i = Some (match w !! i with Some c => c | None => SPACE end).
Proof.
  intros Hi. unfold normalize.
  destruct (Nat.eqb_spec (length w) W) as [Heq | Hne].
  - destruct (lookup_lt_is_Some_2 w i) as [c Hc]; [lia|]. by rewrite Hc.
  - destruct (Nat.ltb_spec W (length w)) as [Hlong | Hshort].
    + rewrite length_take, Nat.min_l by lia.
      destruct (Nat.ltb_spec W W); [lia|].
      rewrite lookup_take_lt by done.
      destruct (lookup_lt_is_Some_2 w i) as [c Hc]; [lia|]. by rewrite Hc.
    + destruct (Nat.ltb_spec (length w) W); [|lia].
      destruct (Nat.lt_ge_cases i (length w)) as [Hin | Hout].
      * rewrite lookup_app_l by done.
        destruct (lookup_lt_is_Some_2 w i) as [c Hc]; [lia|]. by rewrite Hc.
      * rewrite lookup_app_r by done.
        rewrite (lookup_ge_None_2 w i) by done.
        apply lookup_replicate_2. lia.
Qed.

Lemma add_reading_loop_spec (N : nat) (word : list ascii) (todo : nat) :
  forall (i : nat) (rs : list (list ascii)) (smoothed : list ascii),
  length rs = i + todo -> length word = i + todo ->
  match add_reading_loop todo i N word rs smoothed with
  | Some (out, rs') =>
      exists o,
        out = smoothed ++ o /\
        rs' = take i rs ++ zip_with (push_reading N) (drop i rs) (drop i word) /\
        votes (zip_with (push_reading N) (drop i rs) (drop i word)) o
  | None => False
  end.
Proof.
  induction todo as [|todo IH]; intros i rs smoothed Hrs Hword; simpl.
  - exists []. rewrite app_nil_r.
    rewrite (drop_ge rs) by lia. rewrite (take_ge rs) by lia.
    simpl. rewrite app_nil_r. repeat split. constructor.
  - destruct (lookup_lt_is_Some_2 rs i) as [dq Hdq]; [lia|].
    destruct (lookup_lt_is_Some_2 word i) as [c Hc]; [lia|].
    rewrite Hdq, Hc.
    set (m := most_common_char (push_reading N dq c)).
    specialize (IH (S i) (<[i := push_reading N dq c]> rs) (smoothed ++ [m])).
    rewrite length_insert in IH.
    specialize (IH ltac:(lia) ltac:(lia)).
    destruct (add_reading_loop todo (S i) N word
                (<[i := push_reading N dq c]> rs) (smoothed ++ [m]))
      as [[out rs']|]; [|done].
    destruct IH as (o & -> & -> & Hvotes).
    rewrite drop_insert_lt in Hvotes |- * by lia.
    rewrite (drop_S rs dq i Hdq), (drop_S word c i Hc). simpl.
    exists (m :: o). split; [by rewrite <- app_assoc|]. split.
    + rewrite (take_S_r _ i (push_reading N dq c)).
      2:{ apply list_lookup_insert_eq. lia. }
      rewrite take_insert_ge by lia. by rewrite <- app_assoc.
    + by constructor.
Qed.

(** [add_reading] on a filter with one window per position. *)
Lemma add_reading_spec (f : CharacterBasedSmoothingFilter) (w : list ascii) :
  length (readings f) = word_length f ->
  match add_reading f w with
  | Some (out, f') =>
      word_length f' = word_length f /\
      window_size f' = window_size f /\
      readings f' = zip_with (push_reading (window_size f)) (readings f)
                      (normalize (word_length f) w) /\
      votes (readings f') out /\
      length out = word_length f
  | None => False
  end.
Proof.
  intros Hlen. unfold add_reading.
  pose proof (add_reading_loop_spec (window_size f)
                (normalize (word_length f) w) (word_length f) 0 (readings f) [])
    as Hloop.
  rewrite normalize_length in Hloop. specialize (Hloop Hlen eq_refl).
  destruct (add_reading_loop _ _ _ _ _ _) as [[out rs']|]; [|done].
  destruct Hloop as (o & -> & -> & Hvotes). simpl in *.
  rewrite !drop_0 in *. repeat split; try done.
  apply Forall2_length in Hvotes. rewrite <- Hvotes.
  rewrite length_zip_with, normalize_length. lia.
Qed.

(** A call on a filter with one window per position has a result, whatever
    the window size. *)
Lemma add_reading_total (f : CharacterBasedSmoothingFilter) (w : list ascii) :
  length (readings f) = word_length f -> is_Some (add_reading f w).
Proof.
  intros Hlen. pose proof (add_reading_spec f w Hlen) as H.
  destruct (add_reading f w); [by eexists | done].
Qed.

Lemma new_filter_wf (W N : nat) : wf (new_filter W N).
Proof.
  split; simpl.
  - apply length_replicate.
  - apply Forall_replicate. apply length_replicate.
Qed.

Lemma add_reading_wf (f f' : CharacterBasedSmoothingFilter)
    (w out : list ascii) :
  wf f -> add_reading f w = Some (out, f') -> wf f'.
Proof.
  intros [Hlen Hall] Hadd. pose proof (add_reading_spec f w Hlen) as H.
  rewrite Hadd in H. destruct H as (HW & HN & Hrs & _ & _).
  split.
  - rewrite Hrs, length_zip_with, normalize_length, HW. lia.
  - rewrite Hrs, HN. apply Forall_forall. intros win Hin.
    apply list_elem_of_lookup in Hin as [i Hi].
    apply lookup_zip_with_Some in Hi as (dq & c & -> & Hdq & _).
    apply length_push_reading.
    rewrite Forall_forall in Hall. apply Hall.
    apply list_elem_of_lookup. by exists i.
Qed.

(** ** Runs of calls *)

Lemma feed_app (f : CharacterBasedSmoothingFilter)
    (ws1 ws2 : list (list ascii)) :
  feed f (ws1 ++ ws2) =
    match feed f ws1 with
    | Some (outs1, f1) =>
        match feed f1 ws2 with
        | Some (outs2, f2) => Some (outs1 ++ outs2, f2)
        | None => None
        end
    | None => None
    end.
Proof.
  revert f. induction ws1 as [|w ws1 IH]; intros f; simpl.
  - by destruct (feed f ws2) as [[? ?]|].
  - destruct (add_reading f w) as [[out f']|]; [|done].
    rewrite IH. destruct (feed f' ws1) as [[outs1 f1]|]; [|done].
    by destruct (feed f1 ws2) as [[? ?]|].
Qed.

(** A run on a well-formed filter with a window of at least one character
    never fails, keeps the filter well formed, and its last output is the
    vote of the final windows. *)
Lemma feed_spec (ws : list (list ascii)) :
  forall f : CharacterBasedSmoothingFilter,
  wf f -> 1 <= window_size f ->
  exists outs f',
    feed f ws = Some (outs, f') /\
    wf f' /\
    word_length f' = word_length f /\
    window_size f' = window_size f /\
    length outs = length ws /\
    (forall out, last outs = Some out -> votes (readings f') out).
Proof.
  induction ws as [|w ws IH]; intros f Hwf HN; simpl.
  - exists [], f. by refine (conj eq_refl (conj Hwf (conj _ (conj _ (conj _ _))))).
  - destruct (add_reading_total f w (proj1 Hwf)) as [[out f1] Hadd].
    rewrite Hadd.
    pose proof (add_reading_wf f f1 w out Hwf Hadd) as Hwf1.
    pose proof (add_reading_spec f w (proj1 Hwf)) as Hspec.
    rewrite Hadd in Hspec. destruct Hspec as (HW & HN1 & Hrs & Hvotes & Hlen).
    destruct (IH f1 Hwf1 ltac:(lia)) as (outs & f' & Hfeed & Hwf' & HW' & HN' & Hl & Hlast).
    rewrite Hfeed. exists (out :: outs), f'.
    refine (conj eq_refl (conj Hwf' (conj _ (conj _ (conj _ _)))));
      [congruence | congruence | simpl; lia |].
    intros o Ho. destruct outs as [|o1 outs].
    + simpl in Ho. injection Ho as <-.
      destruct ws; [|done]. simpl in Hfeed. by injection Hfeed as <-.
    + apply Hlast. by rewrite last_cons_cons in Ho.
Qed.

(** The windows after the same word was fed [k] times. *)
Lemma feed_replicate (w : list ascii) (k : nat) :
  forall f : CharacterBasedSmoothingFilter,
  wf f -> 1 <= window_size f ->
  exists outs f',
    feed f (replicate k w) = Some (outs, f') /\
    readings f' =
      zip_with (fun dq c => drop k dq ++ replicate (min k (window_size f)) c)
        (readings f) (normalize (word_length f) w).
Proof.
  induction k as [|k IH]; intros f Hwf HN.
  - exists [], f. split; [done|]. simpl.
    apply list_eq. intros i. rewrite lookup_zip_with.
    destruct (readings f !! i) as [dq|] eqn:Hdq; simpl; [|done].
    destruct (lookup_lt_is_Some_2 (normalize (word_length f) w) i) as [c Hc].
    { rewrite normalize_length. rewrite <- (proj1 Hwf). by eapply lookup_lt_Some. }
    rewrite Hc. simpl. by rewrite app_nil_r.
  - destruct (IH f Hwf HN) as (outs & fk & Hfeed & Hrs).
    destruct (feed_spec (replicate k w) f Hwf HN)
      as (outs' & fk' & Hfeed' & Hwfk & HWk & HNk & _).
    rewrite Hfeed in Hfeed'. injection Hfeed' as <- <-.
    destruct (add_reading_total fk w (proj1 Hwfk)) as [[out f'] Hadd].
    exists (outs ++ [out]), f'. split.
    + rewrite replicate_S_end, feed_app, Hfeed. simpl. by rewrite Hadd.
    + pose proof (add_reading_spec fk w (proj1 Hwfk)) as Hspec.
      rewrite Hadd in Hspec. destruct Hspec as (_ & _ & -> & _).
      rewrite Hrs, HWk, HNk.
      apply list_eq. intros i. rewrite !lookup_zip_with.
      destruct (readings f !! i) as [dq|] eqn:Hdq; simpl; [|done].
      destruct (normalize (word_length f) w !! i) as [c|] eqn:Hc; simpl; [|done].
      f_equal. apply push_reading_again; [done|].
      destruct Hwf as [_ Hall]. rewrite Forall_forall in Hall. apply Hall.
      apply list_elem_of_lookup. by exists i.
Qed.

(** Reading the votes position by position: a window that holds a
    character votes for its earliest most common one, an empty window for
    NUL. *)
Lemma votes_lookup (windows : list (list ascii)) (out : list ascii)
    (i : nat) (c : ascii) :
  votes windows out -> out !! i = Some c ->
  exists window,
    windows !! i = Some window /\
    (window <> [] -> earliest_most_common window c) /\
    (window = [] -> c = NUL).
Proof.
  intros Hvotes Hc.
  destruct (Forall2_lookup_r _ _ _ _ _ Hvotes Hc) as (window & Hwin & <-).
  exists window. split; [done|]. split.
  - apply most_common_char_spec.
  - by intros ->.
Qed.

(** Windows that hold a single character each vote for that character. *)
Lemma votes_uniform (N : nat) (w out : list ascii) :
  1 <= N -> votes (map (replicate N) w) out -> out = w.
Proof.
  intros HN Hvotes. apply list_eq. intros i.
  pose proof (Forall2_length _ _ _ Hvotes) as Hlen. rewrite length_map in Hlen.
  destruct (out !! i) as [c|] eqn:Hc.
  - destruct (votes_lookup _ _ _ _ Hvotes Hc) as (window & Hwin & Hm & _).
    rewrite list_lookup_fmap in Hwin.
    destruct (w !! i) as [a|]; [|done]. injection Hwin as <-.
    f_equal. apply (earliest_most_common_one_run N a c). apply Hm.
    destruct N; [lia | done].
  - symmetry. apply lookup_ge_None. apply lookup_ge_None in Hc. lia.
Qed.

Lemma last_output_app (f f1 : CharacterBasedSmoothingFilter)
    (ws1 ws2 : list (list ascii)) (outs1 : list (list ascii)) :
  feed f ws1 = Some (outs1, f1) -> ws2 <> [] -> wf f1 -> 1 <= window_size f1 ->
  last_output f (ws1 ++ ws2) = last_output f1 ws2.
Proof.
  intros Hfeed Hne Hwf HN. unfold last_output. rewrite feed_app, Hfeed.
  destruct (feed_spec ws2 f1 Hwf HN) as (outs2 & f2 & -> & _ & _ & _ & Hlen & _).
  destruct outs2 as [|o outs2 _] using rev_ind.
  - destruct ws2; [done | simpl in Hlen; lia].
  - by rewrite app_assoc, !last_snoc.
Qed.

(** The last output of a non-empty run is the vote of the final windows. *)
Lemma last_output_votes (f : CharacterBasedSmoothingFilter)
    (ws : list (list ascii)) :
  wf f -> 1 <= window_size f -> ws <> [] ->
  exists outs f' out,
    feed f ws = Some (outs, f') /\ last_output f ws = Some out /\
    votes (readings f') out.
Proof.
  intros Hwf HN Hne. unfold last_output.
  destruct (feed_spec ws f Hwf HN) as (outs & f' & Hfeed & _ & _ & _ & Hlen & Hlast).
  rewrite Hfeed. destruct outs as [|o outs _] using rev_ind.
  - destruct ws; [done | simpl in Hlen; lia].
  - exists (outs ++ [o]), f', o. rewrite last_snoc in *. auto.
Qed.

End SmoothingFacts.

(** ** Properties of the smoothing filter *)

Module SmoothingProps.
Import Std StdFacts Smoothing SmoothingFacts.

(** C10.  A freshly constructed filter holds, for every position, a window
    of [window_size] NUL characters; hence for a word length of at least 1
    and a window size of at least 3 the first call of [add_reading] returns
    [word_length] NUL characters, whatever the word. *)
Theorem first_reading_is_all_nul (W N : nat) (w : list ascii) :
  1 <= W -> 3 <= N ->
  readings (new_filter W N) = replicate W (replicate N NUL) /\
  exists f', add_reading (new_filter W N) w = Some (replicate W NUL, f').
Proof.
  intros HW HN. split; [done|].
  pose proof (new_filter_wf W N) as Hwf.
  destruct (add_reading_total (new_filter W N) w (proj1 Hwf)) as [[out f'] Hadd].
  pose proof (add_reading_spec (new_filter W N) w (proj1 Hwf)) as Hspec.
  rewrite Hadd in Hspec. simpl in Hspec.
  destruct Hspec as (_ & _ & Hrs & Hvotes & Hlen).
  exists f'. rewrite Hadd. do 2 f_equal.
  rewrite <- Hlen. symmetry. apply replicate_as_Forall. split; [done|].
  apply Forall_forall. intros c Hc. symmetry.
  apply list_elem_of_lookup in Hc as [i Hi].
  destruct (votes_lookup _ _ _ _ Hvotes Hi) as (window & Hwin & Hm & _).
  rewrite Hrs in Hwin.
  apply lookup_zip_with_Some in Hwin as (dq & a & -> & Hdq & _).
  apply lookup_replicate in Hdq as [-> _].
  rewrite push_reading_full in Hm by apply length_replicate.
  destruct N as [|N]; [lia|]. simpl in Hm. rewrite drop_0 in Hm.
  assert (Hfull : replicate N NUL ++ [a] <> [])
    by (by destruct (replicate N NUL)).
  specialize (Hm Hfull).
  destruct (Ascii.ascii_dec a NUL) as [-> | Hne].
  - rewrite <- replicate_S_end in Hm.
    by apply earliest_most_common_one_run in Hm.
  - change [a] with (replicate 1 a) in Hm.
    apply earliest_most_common_two_runs in Hm; [|done | lia].
    destruct (Nat.ltb_spec N 1); [lia | done].
Qed.

Lemma first_reading_is_all_nul_witness :
  readings (new_filter 2 3) = replicate 2 (replicate 3 NUL) /\
  exists f', add_reading (new_filter 2 3) ["h"; "i"]%char
             = Some (replicate 2 NUL, f').
Proof. apply (first_reading_is_all_nul 2 3); lia. Defined.

(** C5, as stated, fails: with a window size of 0 and a word length of 1 the
    window is empty when the vote is taken and the call returns the NUL
    that ends the empty string, so the word fed once is not returned. *)
Lemma convergence_needs_a_window :
  0 <= 1 /\ length ["A"%char] = 1 /\
  last_output (new_filter 1 0) (replicate 1 ["A"%char]) <> Some ["A"%char].
Proof. repeat split; [lia | vm_compute; discriminate]. Qed.

(** C5, amended.  For a word length [W] and a window size [N] with
    [1 <= N <= W], feeding the same word of length [W] to a freshly
    constructed filter [W] times in a row makes the last call return that
    word. *)
Theorem steady_state_convergence (W N : nat) (w : list ascii) :
  1 <= N -> N <= W -> length w = W ->
  last_output (new_filter W N) (replicate W w) = Some w.
Proof.
  intros HN HNW Hlen.
  pose proof (new_filter_wf W N) as Hwf.
  destruct (last_output_votes (new_filter W N) (replicate W w) Hwf)
    as (outs & f' & out & Hfeed & -> & Hvotes); [simpl; lia | |].
  { destruct W; [lia | done]. }
  destruct (feed_replicate w W (new_filter W N) Hwf) as (outs' & f'' & Hfeed' & Hrs);
    [simpl; lia|].
  rewrite Hfeed in Hfeed'. injection Hfeed' as <- <-.
  simpl in Hrs. rewrite normalize_exact in Hrs by done.
  f_equal. apply (votes_uniform N); [done|].
  replace (map (replicate N) w) with (readings f'); [done|].
  rewrite Hrs. apply list_eq. intros i.
  rewrite lookup_zip_with, list_lookup_fmap.
  destruct (w !! i) as [c|] eqn:Hc.
  - rewrite lookup_replicate_2 by (apply lookup_lt_Some in Hc; lia). simpl.
    rewrite drop_ge by (rewrite length_replicate; lia).
    by rewrite Nat.min_r by lia.
  - by destruct (replicate W (replicate N NUL) !! i).
Qed.

Lemma steady_state_convergence_witness :
  last_output (new_filter 3 2) (replicate 3 ["1"; "2"; "3"]%char)
    = Some ["1"; "2"; "3"]%char.
Proof. apply (steady_state_convergence 3 2); [lia | lia | reflexivity]. Defined.

(** C1, as stated, fails: with a window of 3 the second "B" already turns
    the output to "B", although only two of the three "A"s were displaced. *)
Lemma second_B_of_three_switches :
  2 < 3 /\
  last_output (new_filter 1 3)
    (replicate 3 ["A"%char] ++ replicate 2 ["B"%char]) = Some ["B"%char] /\
  last_output (new_filter 1 3)
    (replicate 3 ["A"%char] ++ replicate 2 ["B"%char]) <> Some ["A"%char].
Proof. repeat split; [lia | vm_compute; discriminate]. Qed.

(** C1, amended.  Word length 1, window size [N >= 1]: after [N]
    consecutive readings of "A" (whatever was read before), the [k]-th
    consecutive reading of "B" returns "A" as long as [2 * k <= N], and "B"
    from the first [k] with [2 * k > N] on: the output changes as soon as the
    "B"s are the strict majority of the window, and at the [N]-th "B" at the
    latest. *)
Theorem majority_holds_until_outnumbered
    (N k : nat) (before : list (list ascii)) :
  1 <= N -> 1 <= k ->
  last_output (new_filter 1 N)
    (before ++ replicate N ["A"%char] ++ replicate k ["B"%char])
  = Some [if Nat.leb (2 * k) N then "A"%char else "B"%char].
Proof.
  intros HN Hk.
  pose proof (new_filter_wf 1 N) as Hwf.
  destruct (feed_spec before (new_filter 1 N) Hwf)
    as (outs0 & f0 & Hfeed0 & Hwf0 & HW0 & HN0 & _); [simpl; lia|].
  simpl in HW0, HN0.
  destruct (feed_spec (replicate N ["A"%char]) f0 Hwf0)
    as (outs1 & f1 & Hfeed1 & Hwf1 & HW1 & HN1 & _); [lia|].
  rewrite (last_output_app _ f0 _ _ outs0 Hfeed0); [| destruct N; [lia | done] | done | lia].
  rewrite (last_output_app _ f1 _ _ outs1 Hfeed1); [| destruct k; [lia | done] | done | lia].
  (* the window after the "A"s *)
  destruct (feed_replicate ["A"%char] N f0 Hwf0) as (outs1' & f1' & Hfeed1' & Hrs1);
    [lia|].
  rewrite Hfeed1 in Hfeed1'. injection Hfeed1' as <- <-.
  destruct Hwf0 as [Hlen0 Hall0]. rewrite HW0 in Hlen0, Hrs1.
  destruct (readings f0) as [|dq0 [|? ?]] eqn:Hrs0; try done.
  apply Forall_cons in Hall0 as [Hdq0 _]. rewrite HN0 in Hdq0, Hrs1.
  simpl in Hrs1. rewrite drop_ge, Nat.min_id in Hrs1 by lia. simpl in Hrs1.
  (* the window after the "B"s *)
  destruct (last_output_votes f1 (replicate k ["B"%char]) Hwf1)
    as (outs2 & f2 & out & Hfeed2 & -> & Hvotes); [lia | destruct k; [lia | done] |].
  destruct (feed_replicate ["B"%char] k f1 Hwf1) as (outs2' & f2' & Hfeed2' & Hrs2);
    [lia|].
  rewrite Hfeed2 in Hfeed2'. injection Hfeed2' as <- <-.
  rewrite Hrs1, HW1, HW0, HN1, HN0 in Hrs2. simpl in Hrs2.
  rewrite drop_replicate in Hrs2.
  rewrite Hrs2 in Hvotes.
  apply Forall2_cons_inv_l in Hvotes as (m & out' & Hm & Hnil & ->).
  apply Forall2_nil_inv_l in Hnil as ->.
  match type of Hm with
  | most_common_char ?window = _ =>
      pose proof (most_common_char_spec window) as Hspec; rewrite Hm in Hspec
  end.
  clear Hm. rename Hspec into Hm.
  assert (Hfull : replicate (N - k) "A"%char ++ replicate (k `min` N) "B"%char
                  <> []).
  { intros Hnil. apply (f_equal length) in Hnil.
    rewrite length_app, !length_replicate in Hnil. simpl in Hnil. lia. }
  specialize (Hm Hfull). do 2 f_equal.
  destruct (Nat.lt_ge_cases k N) as [Hlt | Hge].
  - rewrite Nat.min_l in Hm by lia.
    apply earliest_most_common_two_runs in Hm; [| done | lia].
    rewrite Hm.
    destruct (Nat.ltb_spec (N - k) k), (Nat.leb_spec (2 * k) N); done || lia.
  - replace (N - k) with 0 in Hm by lia. simpl in Hm.
    apply earliest_most_common_one_run in Hm. rewrite Hm.
    destruct (Nat.leb_spec (2 * k) N); [lia | done].
Qed.

Lemma majority_holds_until_outnumbered_witness :
  last_output (new_filter 1 4)
    ([["x"%char]] ++ replicate 4 ["A"%char] ++ replicate 2 ["B"%char])
  = Some [if Nat.leb (2 * 2) 4 then "A"%char else "B"%char].
Proof. apply (majority_holds_until_outnumbered 4 2); lia. Defined.

(** C6.  For every window size [N], a window size of 0 included, every
    word length [W] and an input of any length, [add_reading] returns a
    string of exactly [W] characters, and the window of every position
    [i < W] is the one the filter held with one character pushed into it:
    the [i]-th input character when the input has one and a space otherwise,
    which is then the newest of the window when the window holds anything.
    The input was cut to [W] or padded with spaces to [W] before the
    windows were updated. *)
Theorem add_reading_returns_word_length
    (f : CharacterBasedSmoothingFilter) (w : list ascii) :
  wf f ->
  exists out f',
    add_reading f w = Some (out, f') /\
    length out = word_length f /\
    length (readings f') = word_length f /\
    forall i, i < word_length f ->
      let c := match w !! i with Some c => c | None => SPACE end in
      exists dq,
        readings f !! i = Some dq /\
        readings f' !! i = Some (push_reading (window_size f) dq c) /\
        (1 <= window_size f ->
         last (push_reading (window_size f) dq c) = Some c).
Proof.
  intros Hwf.
  destruct (add_reading_total f w (proj1 Hwf)) as [[out f'] Hadd].
  pose proof (add_reading_spec f w (proj1 Hwf)) as Hspec.
  rewrite Hadd in Hspec. destruct Hspec as (HW & _ & Hrs & _ & Hlen).
  pose proof (add_reading_wf f f' w out Hwf Hadd) as [Hlen' _].
  exists out, f'. split; [done|]. split; [done|]. split; [congruence|].
  intros i Hi c.
  destruct (lookup_lt_is_Some_2 (readings f) i) as [dq Hdq];
    [rewrite (proj1 Hwf); lia|].
  exists dq. split; [done|]. split.
  - rewrite Hrs, lookup_zip_with, Hdq. simpl.
    by rewrite normalize_lookup.
  - intros HN. by apply last_push_reading.
Qed.

Lemma add_reading_returns_word_length_witness :
  exists out f',
    add_reading (new_filter 2 0) ["a"; "b"; "c"]%char = Some (out, f') /\
    length out = word_length (new_filter 2 0) /\
    length (readings f') = word_length (new_filter 2 0) /\
    forall i, i < word_length (new_filter 2 0) ->
      let c := match ["a"; "b"; "c"]%char !! i with
               | Some c => c
               | None => SPACE
               end in
      exists dq,
        readings (new_filter 2 0) !! i = Some dq /\
        readings f' !! i
          = Some (push_reading (window_size (new_filter 2 0)) dq c) /\
        (1 <= window_size (new_filter 2 0) ->
         last (push_reading (window_size (new_filter 2 0)) dq c) = Some c).
Proof.
  apply (add_reading_returns_word_length (new_filter 2 0)).
  split; [reflexivity | repeat constructor].
Defined.

(** C7.  In [add_reading] the character emitted for a position occurs at
    least as often in that position's window as every other character, and
    every character in front of it in the window, oldest first, occurs
    strictly less often: among the characters tied for the highest count the
    one met first in the window is selected, whatever its value ("B" is
    selected from the window "B", "A").  Only for a window size of 0 there
    is no character in the window to select, and NUL is emitted. *)
Theorem emitted_character_is_earliest_most_common :
  (forall (f : CharacterBasedSmoothingFilter) (w : list ascii),
     wf f ->
     match add_reading f w with
     | Some (out, f') =>
         length out = word_length f /\
         forall i c, out !! i = Some c ->
           exists window,
             readings f' !! i = Some window /\
             (forall y, count window y <= count window c) /\
             (earliest_most_common window c \/
              window_size f = 0 /\ window = [] /\ c = NUL)
     | None => False
     end) /\
  add_reading (mkFilter 1 2 [["C"; "B"]%char]) ["A"%char]
    = Some (["B"%char], mkFilter 1 2 [["B"; "A"]%char]).
Proof.
  split; [|reflexivity].
  intros f w Hwf.
  pose proof (add_reading_spec f w (proj1 Hwf)) as Hspec.
  destruct (add_reading f w) as [[out f']|] eqn:Hadd; [|done].
  destruct Hspec as (_ & HN & _ & Hvotes & Hlen). split; [done|].
  intros i c Hc.
  destruct (votes_lookup _ out _ _ Hvotes Hc) as (window & Hwin & Hfull & Hnil).
  exists window. split; [done|].
  destruct window as [|x rest].
  - rewrite (Hnil eq_refl). split; [done|]. right.
    pose proof (add_reading_wf f f' w out Hwf Hadd) as [_ Hall].
    rewrite Forall_forall in Hall.
    assert (Hin : [] ∈ readings f') by (apply list_elem_of_lookup; by exists i).
    apply Hall in Hin. simpl in Hin. by rewrite <- HN, <- Hin.
  - assert (Hemc : earliest_most_common (x :: rest) c) by by apply Hfull.
    split; [|by left].
    intros y. destruct (decide (y ∈ x :: rest)) as [Hy | Hy].
    + destruct Hemc as (_ & _ & _ & _ & Hall). by apply Hall.
    + assert (count (x :: rest) y = 0) as ->; [|lia].
      clear -Hy. induction (x :: rest) as [|z l IH]; [done|]. simpl.
      destruct (Ascii.eqb_spec z y) as [-> | Hne].
      * exfalso. apply Hy. apply elem_of_cons. by left.
      * apply IH. intros Hin. apply Hy. apply elem_of_cons. by right.
Qed.

Lemma emitted_character_is_earliest_most_common_witness :
  match add_reading (new_filter 1 2) ["A"%char] with
  | Some (out, f') =>
      length out = word_length (new_filter 1 2) /\
      forall i c, out !! i = Some c ->
        exists window,
          readings f' !! i = Some window /\
          (forall y, count window y <= count window c) /\
          (earliest_most_common window c \/
           window_size (new_filter 1 2) = 0 /\ window = [] /\ c = NUL)
  | None => False
  end.
Proof.
  apply (proj1 emitted_character_is_earliest_most_common (new_filter 1 2)).
  split; [reflexivity | repeat constructor].
Defined.

End SmoothingProps.

(** ** Properties of the region filter *)

Module RegionProps.
Import Regions.

Local Open Scope Z_scope.

(** Truncation keeps a confidence that is at least an integer threshold at
    or above it. *)
Lemma int_of_conf_ge (threshold_ : Z) (conf : Q) :
  (inject_Z threshold_ <= conf)%Q -> threshold_ <= int_of_conf conf.
Proof.
  destruct conf as [num den]. unfold Qle, int_of_conf. simpl.
  rewrite Z.mul_1_r. intros Hle.
  destruct (Z.le_gt_cases 0 num) as [Hnum | Hnum].
  - rewrite Z.quot_div_nonneg by lia. apply Z.div_le_lower_bound; lia.
  - assert (Hq : Z.quot num (Z.pos den) = - ((- num) / Z.pos den)).
    { rewrite <- (Z.opp_involutive num) at 1.
      rewrite Z.quot_opp_l by lia. rewrite Z.quot_div_nonneg by lia. done. }
    rewrite Hq.
    assert ((- num) / Z.pos den <= - threshold_); [|lia].
    apply Z.div_le_upper_bound; lia.
Qed.

Lemma loop_body_kept (tf : filter_data) (level : Tess.PageIteratorLevel)
    (imageSize : Cv.Size) (e : Tess.Element) (boxes : list OCRBox) :
  loop_body tf level imageSize e boxes
    = if kept tf level imageSize e then boxes ++ [box_of e] else boxes.
Proof.
  unfold loop_body, kept.
  destruct (Tess.Empty e); simpl; [done|].
  destruct level; simpl.
  - destruct (Z.ltb_spec (int_of_conf (Tess.Confidence e))
                (conf_threshold (config tf))),
             (Z.leb_spec (conf_threshold (config tf))
                (int_of_conf (Tess.Confidence e))); try lia; simpl; [done|].
    destruct (Z.ltb_spec (box_area e) 100), (Z.leb_spec 100 (box_area e));
      try lia; simpl; [done|].
    destruct (Z.ltb_spec (half_image_area imageSize) (box_area e)),
             (Z.leb_spec (box_area e) (half_image_area imageSize));
      try lia; done.
  - destruct (Z.ltb_spec (box_area e) 100), (Z.leb_spec 100 (box_area e));
      try lia; simpl; [done|].
    destruct (Z.ltb_spec (half_image_area imageSize) (box_area e)),
             (Z.leb_spec (box_area e) (half_image_area imageSize));
      try lia; done.
Qed.

(** The [do]-[while] appends, in order, the boxes of the kept positions. *)
Lemma do_while_filter (tf : filter_data) (level : Tess.PageIteratorLevel)
    (imageSize : Cv.Size) (next : list Tess.Element) :
  forall (current : Tess.Element) (boxes : list OCRBox),
  do_while tf level imageSize current next boxes
    = boxes ++ map box_of
        (List.filter (kept tf level imageSize) (current :: next)).
Proof.
  induction next as [|e next IH]; intros current boxes; simpl.
  - rewrite loop_body_kept.
    destruct (kept tf level imageSize current); simpl; [done|].
    by rewrite app_nil_r.
  - rewrite IH, loop_body_kept. simpl.
    destruct (kept tf level imageSize current); simpl; [|done].
    by rewrite <- app_assoc.
Qed.

Lemma extract_text_detection_boxes_filter `{Tesseract} (tf : filter_data)
    (imageSize : Cv.Size) :
  extract_text_detection_boxes tf imageSize
    = map box_of
        (List.filter (kept tf (iteration_level tf) imageSize) (visited tf)).
Proof.
  unfold extract_text_detection_boxes, visited.
  destruct (GetIterator (tesseract_model tf)) as [ri|]; [|done].
  destruct (ri (iteration_level tf)) as [current next].
  by rewrite do_while_filter.
Qed.

Lemma kept_true (tf : filter_data) (level : Tess.PageIteratorLevel)
    (imageSize : Cv.Size) (e : Tess.Element) :
  kept tf level imageSize e = true <->
  Tess.Empty e = false /\
  (level = Tess.RIL_WORD ->
   conf_threshold (config tf) <= int_of_conf (Tess.Confidence e)) /\
  100 <= box_area e <= half_image_area imageSize.
Proof.
  unfold kept. rewrite !andb_true_iff, negb_true_iff, !Z.leb_le.
  destruct level.
  - rewrite Z.leb_le. intuition.
  - intuition. discriminate.
Qed.

(** C4.  [extract_text_detection_boxes] returns the boxes of the visited
    regions that pass the filter, in order.  Every box it returns comes from a
    visited region that is not empty and whose area is at least 100 and at
    most half the image area (integer division), so regions with an area
    below 100 or above half the image area are discarded; and every visited
    region that is not empty, whose area is in that range, the bound itself
    included, and, at word level, whose confidence is at or above the
    threshold, has its box in the result. *)
Theorem region_filter_bounds `{Tesseract} (tf : filter_data)
    (imageSize : Cv.Size) :
  extract_text_detection_boxes tf imageSize
    = map box_of
        (List.filter (kept tf (iteration_level tf) imageSize) (visited tf)) /\
  (forall b, b ∈ extract_text_detection_boxes tf imageSize ->
     100 <= rect_area b <= half_image_area imageSize /\
     exists e, e ∈ visited tf /\ b = box_of e /\ Tess.Empty e = false /\
               100 <= box_area e <= half_image_area imageSize) /\
  (forall e, e ∈ visited tf ->
     Tess.Empty e = false ->
     100 <= box_area e <= half_image_area imageSize ->
     (iteration_level tf = Tess.RIL_WORD ->
      (inject_Z (conf_threshold (config tf)) <= Tess.Confidence e)%Q) ->
     box_of e ∈ extract_text_detection_boxes tf imageSize) /\
  (forall e, e ∈ visited tf ->
     box_area e < 100 \/ half_image_area imageSize < box_area e ->
     kept tf (iteration_level tf) imageSize e = false).
Proof.
  rewrite extract_text_detection_boxes_filter. split; [done|]. split; [|split].
  - intros b Hb. apply list_elem_of_fmap in Hb as (e & -> & He).
    apply list_elem_of_In, filter_In in He as [He Hkept].
    apply kept_true in Hkept as (Hempty & _ & Harea).
    split; [exact Harea|]. exists e. by rewrite list_elem_of_In.
  - intros e He Hempty Harea Hconf. apply list_elem_of_fmap. exists e.
    split; [done|]. apply list_elem_of_In, filter_In.
    split; [by apply list_elem_of_In|].
    apply kept_true. split; [done|]. split; [|done].
    intros Hlevel. apply int_of_conf_ge. by apply Hconf.
  - intros e _ Harea.
    destruct (kept tf (iteration_level tf) imageSize e) eqn:Hkept; [|done].
    apply kept_true in Hkept as (_ & _ & Hin). lia.
Qed.

Lemma region_filter_bounds_witness :
  let tf :=
    Sim.instance_ (Sim.settings false 15 60 ["m"%char]) Cv.Mat_default
      Cv.Mat_default in
  let backend_ := Sim.backend None 0 (Some Sim.sample_iterator) in
  box_area (Sim.word_element (70 # 1) 0 0 100 50) = half_image_area (100, 100) /\
  box_of (Sim.word_element (70 # 1) 0 0 100 50)
    ∈ @extract_text_detection_boxes backend_ tf (100, 100) /\
  kept tf (iteration_level tf) (100, 100) (Sim.word_element (80 # 1) 0 0 5 10)
    = false /\
  kept tf (iteration_level tf) (100, 100) (Sim.word_element (70 # 1) 0 0 100 51)
    = false.
Proof.
  intros tf backend_.
  pose proof (@region_filter_bounds backend_ tf (100, 100))
    as (_ & _ & Hkept & Hdiscarded).
  split; [reflexivity|]. split; [|split].
  - apply Hkept.
    + apply list_elem_of_In. vm_compute. do 3 right. left. reflexivity.
    + reflexivity.
    + vm_compute. split; discriminate.
    + intros _. vm_compute. discriminate.
  - apply Hdiscarded.
    + apply list_elem_of_In. vm_compute. right. left. reflexivity.
    + left. vm_compute. reflexivity.
  - apply Hdiscarded.
    + apply list_elem_of_In. vm_compute. do 4 right. left. reflexivity.
    + right. vm_compute. reflexivity.
Defined.

End RegionProps.

(** ** Properties of the worker *)

Module WorkerFacts.
Import Worker.

Local Open Scope Z_scope.

(** *** Steps that leave the cache alone *)

Create HintDb cache.

Section KeepsCache.

Context `{OpenCV} `{Tesseract} `{Host}.

Lemma bind_keeps_cache {A B : Type} (m : Exec A) (k : A -> Exec B) :
  (forall s, LastFrameCache (snd (m s)) = LastFrameCache s) ->
  (forall a s, LastFrameCache (snd (k a s)) = LastFrameCache s) ->
  forall s, LastFrameCache (snd (bind m k s)) = LastFrameCache s.
Proof.
  intros Hm Hk s. unfold bind. specialize (Hm s).
  destruct (m s) as [[a| |] s1]; simpl in *; [|done|done].
  by rewrite Hk.
Qed.

Lemma ret_keeps_cache {A : Type} (a : A) (s : thread_state) :
  LastFrameCache (snd (ret a s)) = LastFrameCache s.
Proof. done. Qed.

Lemma lift_keeps_cache {A : Type} (o : outcome A) (s : thread_state) :
  LastFrameCache (snd (lift o s)) = LastFrameCache s.
Proof. done. Qed.

Lemma get_tf_keeps_cache (s : thread_state) :
  LastFrameCache (snd (get_tf s)) = LastFrameCache s.
Proof. done. Qed.

Lemma publish_keeps_cache (e : sink_event) (s : thread_state) :
  LastFrameCache (snd (publish e s)) = LastFrameCache s.
Proof. done. Qed.

Lemma preview_keeps_cache (m : Cv.Mat) (s : thread_state) :
  LastFrameCache (snd (modify_tf (set_outputPreviewBGRA m) s))
    = LastFrameCache s.
Proof. done. Qed.

#[local] Hint Resolve ret_keeps_cache lift_keeps_cache get_tf_keeps_cache
  publish_keeps_cache preview_keeps_cache : cache.

Ltac keeps_cache :=
  repeat first
    [ progress auto with cache
    | apply bind_keeps_cache; intros
    | match goal with
      | |- context [if ?b then _ else _] => destruct b
      | |- context [match ?x with _ => _ end] => destruct x
      end ].

Lemma binarize_keeps_cache (m : Cv.Mat) (s : thread_state) :
  LastFrameCache (snd (binarize m s)) = LastFrameCache s.
Proof. revert s. unfold binarize. keeps_cache. Qed.

Lemma dilate_step_keeps_cache (m : Cv.Mat) (s : thread_state) :
  LastFrameCache (snd (dilate_step m s)) = LastFrameCache s.
Proof. revert s. unfold dilate_step. keeps_cache. Qed.

Lemma preview_step_keeps_cache (m : Cv.Mat) (s : thread_state) :
  LastFrameCache (snd (preview_step m s)) = LastFrameCache s.
Proof. revert s. unfold preview_step. keeps_cache. Qed.

Lemma rescale_step_keeps_cache (m : Cv.Mat) (s : thread_state) :
  LastFrameCache (snd (rescale_step m s)) = LastFrameCache s.
Proof. revert s. unfold rescale_step. keeps_cache. Qed.

Lemma run_tesseract_ocr_cache (tf_ : filter_data) (m : Cv.Mat) :
  lastInputBGRA (snd (Recognition.run_tesseract_ocr tf_ m))
    = lastInputBGRA tf_.
Proof.
  unfold Recognition.run_tesseract_ocr.
  destruct (GetUTF8Text _); [|done].
  destruct (_ <? _); [done|].
  destruct (enable_smoothing _); [|done].
  simpl. destruct (smoothing_filter tf_); [|done].
  by destruct (Smoothing.add_reading _ _) as [[? ?]|].
Qed.

Lemma recognize_step_keeps_cache (m : Cv.Mat) (s : thread_state) :
  LastFrameCache (snd (recognize_step m s)) = LastFrameCache s.
Proof.
  unfold recognize_step, LastFrameCache.
  pose proof (run_tesseract_ocr_cache (tf s) m) as Hc.
  by destruct (Recognition.run_tesseract_ocr (tf s) m).
Qed.

Lemma draw_boxes_keeps_cache (boxes : list OCRBox) :
  forall (m : Cv.Mat) (s : thread_state),
  LastFrameCache (snd (draw_boxes m boxes s)) = LastFrameCache s.
Proof.
  induction boxes as [|b boxes IH]; intros m s; simpl; [done|].
  revert s. apply bind_keeps_cache; [by intros | intros; apply IH].
Qed.

Lemma detection_output_step_keeps_cache (m : Cv.Mat) (s : thread_state) :
  LastFrameCache (snd (detection_output_step m s)) = LastFrameCache s.
Proof.
  revert s. unfold detection_output_step.
  apply bind_keeps_cache; [done|]. intros tf_.
  destruct (is_valid_output_source_name _); [|done].
  apply bind_keeps_cache; [|done].
  destruct (output_image_option _); [|done|done].
  intros s. apply draw_boxes_keeps_cache.
Qed.

Lemma text_output_step_keeps_cache (r : list ascii) (s : thread_state) :
  LastFrameCache (snd (text_output_step r s)) = LastFrameCache s.
Proof. revert s. unfold text_output_step. keeps_cache. Qed.

Lemma recognize_and_publish_keeps_cache (a b : Cv.Mat) (s : thread_state) :
  LastFrameCache (snd (recognize_and_publish a b s)) = LastFrameCache s.
Proof.
  revert s. unfold recognize_and_publish.
  apply bind_keeps_cache; [apply recognize_step_keeps_cache|]. intros r.
  apply bind_keeps_cache; [apply detection_output_step_keeps_cache|]. intros _.
  apply bind_keeps_cache; [apply text_output_step_keeps_cache|]. done.
Qed.

(** The change check reads the state and leaves it as it is. *)
Lemma skip_processing_state (m : Cv.Mat) (s : thread_state) :
  snd (skip_processing m s) = s.
Proof.
  unfold skip_processing, bind, get_tf, lift, ret.
  repeat match goal with
         | |- context [if ?b then _ else _] => destruct b
         | |- context [match ?x with _ => _ end] => destruct x
         end; done.
Qed.

Lemma recognize_and_publish_exit (a b : Cv.Mat) (s : thread_state) :
  fst (recognize_and_publish a b s) <> Normal ContinueStatement.
Proof.
  unfold recognize_and_publish, bind, ret.
  repeat match goal with
         | |- context [match ?x with _ => _ end] =>
             destruct x as [[?| |] ?]; simpl
         end; discriminate.
Qed.

Lemma process_changed_frame_spec (m : Cv.Mat) (s : thread_state) :
  fst (process_changed_frame m s) <> Normal ContinueStatement /\
  LastFrameCache (snd (process_changed_frame m s)) = m.
Proof.
  set (s1 := {| tf := set_lastInputBGRA (Cv.clone m) (tf s);
                published := published s |}).
  change (process_changed_frame m s)
    with ((imageForOCR <- binarize (Cv.clone m) ;;
           imageForOCR <- dilate_step imageForOCR ;;
           preview_step imageForOCR ;;;
           imageForOCR <- rescale_step imageForOCR ;;
           recognize_and_publish m imageForOCR) s1).
  split.
  - pose proof recognize_and_publish_exit as Hexit.
    unfold bind.
    repeat match goal with
           | |- context [match ?x with _ => _ end] =>
               destruct x as [[?| |] ?]; simpl
           end; try discriminate; apply Hexit.
  - change m with (LastFrameCache s1) at 2. revert s1.
    apply bind_keeps_cache; [apply binarize_keeps_cache|]. intros a.
    apply bind_keeps_cache; [apply dilate_step_keeps_cache|]. intros b.
    apply bind_keeps_cache; [apply preview_step_keeps_cache|]. intros _.
    apply bind_keeps_cache; [apply rescale_step_keeps_cache|]. intros c.
    apply recognize_and_publish_keeps_cache.
Qed.

(** The ways out of the [try] block, by the outcome of the change check. *)
Lemma process_frame_cases (m : Cv.Mat) (s : thread_state) :
  process_frame m s =
    match fst (skip_processing m s) with
    | Normal true => (Normal ContinueStatement, s)
    | Normal false => process_changed_frame m s
    | Raised => (Raised, s)
    | Undefined => (Undefined, s)
    end.
Proof.
  pose proof (skip_processing_state m s) as Hs.
  unfold process_frame. unfold bind at 1.
  destruct (skip_processing m s) as [[[|]| |] s1]; simpl in *; by subst.
Qed.

(** One pass through the loop body, by the outcome of the change check. *)
Lemma loop_iteration_cases (inp : iteration_input) (s : thread_state) :
  tesseract_thread_run (tf s) = true ->
  Cv.empty (snapshot inp s) = false ->
  match fst (skip_processing (snapshot inp s) s) with
  | Normal true => loop_iteration inp s = (Continue, s)
  | Normal false =>
      fst (loop_iteration inp s) <> Continue /\
      LastFrameCache (snd (loop_iteration inp s)) = snapshot inp s
  | Raised =>
      fst (loop_iteration inp s) <> Continue /\
      LastFrameCache (snd (loop_iteration inp s)) = LastFrameCache s
  | Undefined => loop_iteration inp s = (NoBehaviour, s)
  end.
Proof.
  intros Hrun Hempty. unfold loop_iteration. rewrite Hrun, Hempty. simpl.
  unfold try_catch. rewrite process_frame_cases.
  destruct (fst (skip_processing (snapshot inp s) s)) as [[|]| |]; try done.
  - destruct (process_changed_frame_spec (snapshot inp s) s) as [Hexit Hcache].
    destruct (process_changed_frame (snapshot inp s) s) as [[[|]| |] s1];
      simpl in *.
    + by destruct Hexit.
    + destruct (0 <? sleep_time_ms _ inp); simpl; by split.
    + destruct (0 <? sleep_time_ms _ inp); simpl; (split; [done | exact Hcache]).
    + by split.
  - simpl. destruct (0 <? sleep_time_ms _ inp); simpl; by split.
Qed.

(** A pass that obtained no frame goes straight to the sleep step. *)
Lemma loop_iteration_no_frame (inp : iteration_input) (s : thread_state) :
  tesseract_thread_run (tf s) = true ->
  Cv.empty (snapshot inp s) = true ->
  loop_iteration inp s =
    (if 0 <? sleep_time_ms (tf s) inp
     then Slept (sleep_time_ms (tf s) inp) else NoSleep, s).
Proof.
  intros Hrun Hempty. unfold loop_iteration. rewrite Hrun, Hempty. simpl.
  by destruct (0 <? sleep_time_ms (tf s) inp).
Qed.

(** Every pass that is not left through [break] or [continue] reaches the
    sleep step and waits for the positive part of period - elapsed. *)
Lemma sleep_step_unless_break_or_continue
    (inp : iteration_input) (s : thread_state) :
  let exit := fst (loop_iteration inp s) in
  let s' := snd (loop_iteration inp s) in
  exit = Break \/ exit = Continue \/ exit = NoBehaviour \/
  exit = (if 0 <? sleep_time_ms (tf s') inp
          then Slept (sleep_time_ms (tf s') inp) else NoSleep).
Proof.
  unfold loop_iteration.
  destruct (negb (tesseract_thread_run (tf s))); [by left|].
  destruct (if negb (Cv.empty (snapshot inp s)) then _ else _)
    as [[[|]|] s1]; simpl.
  - right. by left.
  - do 3 right.
    destruct (0 <? sleep_time_ms (tf s1) inp) eqn:E; simpl; by rewrite E.
  - right. right. by left.
Qed.

End KeepsCache.

(** The value the change threshold takes when the configured percentage is
    0: whatever the frame, it is 0 pixels. *)
Lemma change_threshold_zero (tf_ : filter_data) (m : Cv.Mat) (T : Z) :
  update_on_change_threshold (config tf_) = 0 ->
  change_threshold_from_image_area tf_ m = Some T -> T = 0.
Proof.
  unfold change_threshold_from_image_area. intros ->.
  change (F32.div (F32.of_int 0) (F32.of_int 100)) with (S754_zero false).
  destruct (F32.of_int (Int.mul (Cv.cols m) (Cv.rows m))) as [sg|sg| |sg mm e];
    simpl; congruence.
Qed.

(** Single precision is too coarse for the pixel counts of very large
    frames: for an 8192 x 8192 frame and a threshold of 54 percent the
    computed threshold is 36238788 pixels, above the 36238787 changed pixels
    that already exceed 54 percent of the frame. *)
Lemma change_threshold_large_frame :
  change_threshold_from_image_area
    (Sim.instance_ (Sim.settings true 54 60 []) Cv.Mat_default Cv.Mat_default)
    (Cv.mkMat 8192 8192 4 []) = Some 36238788 /\
  54 * (8192 * 8192) < 100 * 36238787 /\
  36238787 < 36238788.
Proof. split; [by vm_compute | lia]. Qed.

End WorkerFacts.

Module WorkerProps.
Import Worker WorkerFacts.

Local Open Scope Z_scope.

(** C9.  The cache is overwritten exactly when a frame gets past the
    change check.  A pass that ends with the [continue] of the change check
    leaves the cache at its previous value; a pass whose frame passes the
    check leaves the cache equal to that frame; and a pass that stops, has
    no frame, or does not get past the check leaves the cache unchanged. *)
Theorem cache_refreshed_only_past_change_check
    `{OpenCV} `{Tesseract} `{Host}
    (inp : iteration_input) (s : thread_state) :
  let imageBGRA := snapshot inp s in
  let exit := fst (loop_iteration inp s) in
  let s' := snd (loop_iteration inp s) in
  (exit = Continue ->
     fst (skip_processing imageBGRA s) = Normal true /\
     LastFrameCache s' = LastFrameCache s) /\
  (tesseract_thread_run (tf s) = true -> Cv.empty imageBGRA = false ->
     fst (skip_processing imageBGRA s) = Normal false ->
     LastFrameCache s' = imageBGRA) /\
  (tesseract_thread_run (tf s) = false \/ Cv.empty imageBGRA = true \/
     fst (skip_processing imageBGRA s) <> Normal false ->
     LastFrameCache s' = LastFrameCache s).
Proof.
  intros imageBGRA exit s'. subst imageBGRA exit s'.
  destruct (tesseract_thread_run (tf s)) eqn:Hrun.
  2:{ assert (Hbreak : loop_iteration inp s = (Break, s)).
      { unfold loop_iteration. by rewrite Hrun. }
      rewrite Hbreak. simpl. repeat split; done. }
  destruct (Cv.empty (snapshot inp s)) eqn:Hempty.
  { rewrite (loop_iteration_no_frame inp s Hrun Hempty).
    destruct (0 <? sleep_time_ms (tf s) inp); simpl; repeat split; done. }
  pose proof (loop_iteration_cases inp s Hrun Hempty) as Hcases.
  destruct (fst (skip_processing (snapshot inp s) s)) as [[|]| |].
  - rewrite Hcases. simpl. repeat split; try done.
  - destruct Hcases as [Hexit Hcache]. repeat split; try done.
    intros [? | [? | ?]]; done.
  - destruct Hcases as [Hexit Hcache]. repeat split; done.
  - rewrite Hcases. simpl. repeat split; done.
Qed.

Lemma cache_refreshed_only_past_change_check_witness :
  let s := Sim.state (Sim.settings true 15 60 [])
             (Sim.flat_frame 3 3 9) (Sim.flat_frame 3 3 7) in
  let backend_ := Sim.backend (Some ["h"; "i"]%char) 80 None in
  LastFrameCache (snd (@loop_iteration Sim.opencv backend_ Sim.host Sim.pass s))
    = Sim.flat_frame 3 3 9.
Proof.
  intros s backend_.
  apply (proj1 (proj2 (@cache_refreshed_only_past_change_check
                         Sim.opencv backend_ Sim.host Sim.pass s)));
    by vm_compute.
Defined.

(** C3, as stated, fails: with change detection enabled and a threshold of
    0 percent, a frame identical to the cache is not skipped; neither is one
    with a threshold of 15 percent when the frame has only 6 pixels, since
    15 percent of 6 pixels is less than one pixel. *)
Lemma identical_frame_not_skipped :
  fst (@skip_processing Sim.opencv (Sim.flat_frame 4 4 7)
         (Sim.state (Sim.settings true 0 60 [])
            (Sim.flat_frame 4 4 7) (Sim.flat_frame 4 4 7))) = Normal false /\
  fst (@skip_processing Sim.opencv (Sim.flat_frame 2 3 7)
         (Sim.state (Sim.settings true 15 60 [])
            (Sim.flat_frame 2 3 7) (Sim.flat_frame 2 3 7))) = Normal false.
Proof. split; by vm_compute. Qed.

(** C3, amended.  With change detection enabled and a frame of the cache's
    dimensions, let [T] be the pixel threshold the code computes, the
    single-precision product of threshold / 100 and width * height cut to an
    integer.  A frame with zero pixel difference yields skip = true exactly
    when [T >= 1]; a frame whose count of differing pixels is at least [T]
    yields skip = false, and one with fewer yields skip = true.  For a
    threshold of 0 percent [T] is 0. *)
Theorem skip_decision_by_truncated_threshold `{OpenCV}
    (imageBGRA : Cv.Mat) (s : thread_state)
    (T changed : Z) (diff gray : Cv.Mat) :
  update_on_change (config (tf s)) = true ->
  Cv.size imageBGRA = Cv.size (lastInputBGRA (tf s)) ->
  change_threshold_from_image_area (tf s) imageBGRA = Some T ->
  absdiff imageBGRA (lastInputBGRA (tf s)) = Normal diff ->
  cvtColor diff Cv.COLOR_BGRA2GRAY = Normal gray ->
  countNonZero gray = Normal changed ->
  (changed = 0 ->
     (fst (skip_processing imageBGRA s) = Normal true <-> 1 <= T)) /\
  (T <= changed -> fst (skip_processing imageBGRA s) = Normal false) /\
  (changed < T -> fst (skip_processing imageBGRA s) = Normal true) /\
  (update_on_change_threshold (config (tf s)) = 0 -> T = 0).
Proof.
  intros Hon Hsize HT Hdiff Hgray Hcount.
  assert (Hskip : fst (skip_processing imageBGRA s) = Normal (changed <? T)).
  { unfold skip_processing, bind, get_tf, lift, ret. simpl.
    rewrite Hon, Hsize. unfold Cv.Size_eqb. rewrite !Z.eqb_refl. simpl.
    by rewrite HT, Hdiff, Hgray, Hcount. }
  rewrite Hskip. repeat split.
  - intros [= Hlt]. apply Z.ltb_lt in Hlt. lia.
  - intros HT1. f_equal. apply Z.ltb_lt. lia.
  - intros Hle. f_equal. apply Z.ltb_ge. lia.
  - intros Hlt. f_equal. apply Z.ltb_lt. lia.
  - intros H0. by apply (change_threshold_zero (tf s) imageBGRA).
Qed.

Lemma skip_decision_by_truncated_threshold_witness :
  let frame := Sim.flat_frame 10 10 7 in
  let s := Sim.state (Sim.settings true 15 60 []) frame frame in
  fst (@skip_processing Sim.opencv frame s) = Normal true <-> 1 <= 15.
Proof.
  intros frame s.
  apply (proj1 (@skip_decision_by_truncated_threshold Sim.opencv frame s
                  15 0 (Sim.with_data frame 4 (replicate 400%nat 0))
                  (Sim.with_data frame 1 (replicate 100%nat 0))
                  eq_refl eq_refl ltac:(by vm_compute)
                  ltac:(by vm_compute) ltac:(by vm_compute)
                  ltac:(by vm_compute))).
  reflexivity.
Defined.

(** C8.  When the mean confidence of a pass is strictly below the
    configured threshold, [run_tesseract_ocr] returns the empty string and
    leaves the smoothing filter as it was; what follows in the worker is the
    image-sink step alone, with its call of [extract_text_detection_boxes],
    and nothing is sent to the text sink. *)
Theorem low_confidence_text_is_discarded `{OpenCV} `{Tesseract} `{Host}
    (imageBGRA image : Cv.Mat) (s : thread_state) :
  let tf' := set_tesseract_model {| Tess.image := image |} (tf s) in
  MeanTextConf {| Tess.image := image |} < conf_threshold (config (tf s)) ->
  Recognition.run_tesseract_ocr (tf s) image = (Normal [], tf') /\
  smoothing_filter tf' = smoothing_filter (tf s) /\
  recognize_and_publish imageBGRA image s
    = (detection_output_step imageBGRA ;;; ret FallThrough)
        {| tf := tf'; published := published s |}.
Proof.
  intros tf' Hlow.
  assert (Hrun : Recognition.run_tesseract_ocr (tf s) image = (Normal [], tf')).
  { unfold Recognition.run_tesseract_ocr. fold tf'. simpl.
    destruct (GetUTF8Text _); [|done].
    destruct (Z.ltb_spec (MeanTextConf {| Tess.image := image |})
                (conf_threshold (config (tf s)))); [done | lia]. }
  split; [done|]. split; [done|].
  unfold recognize_and_publish. unfold bind at 1, recognize_step.
  rewrite Hrun. simpl.
  unfold bind.
  destruct (detection_output_step imageBGRA _) as [[[]| |] s1]; done.
Qed.

Lemma low_confidence_text_is_discarded_witness :
  let frame := Sim.flat_frame 20 20 7 in
  let s := Sim.state (Sim.settings false 15 60 ["m"%char]) frame frame in
  let backend_ :=
    Sim.backend (Some ["h"; "i"]%char) 59 (Some Sim.sample_iterator) in
  @Recognition.run_tesseract_ocr backend_ (tf s) frame
    = (Normal [], set_tesseract_model {| Tess.image := frame |} (tf s)).
Proof.
  intros frame s backend_.
  apply (@low_confidence_text_is_discarded Sim.opencv backend_ Sim.host
           frame frame s).
  vm_compute. reflexivity.
Defined.

(** C2 does not hold of the code.  A pass over a frame identical to the
    cache, with change detection on and 95 ms of the period left, ends at
    the [continue] of the change check: the sleep step is not reached, and
    the next pass over the same frame begins at once and ends the same
    way. *)
Theorem unchanged_frame_pass_skips_the_sleep :
  let frame := Sim.flat_frame 10 10 7 in
  let s := Sim.state (Sim.settings true 15 60 []) frame frame in
  let backend_ := Sim.backend (Some ["h"; "i"]%char) 80 None in
  sleep_time_ms (tf s) Sim.pass = 95 /\
  @loop_iteration Sim.opencv backend_ Sim.host Sim.pass s = (Continue, s) /\
  fst (@tesseract_thread Sim.opencv backend_ Sim.host
         [(id, Sim.pass); (id, Sim.pass); (id, Sim.pass)] s)
    = [Continue; Continue; Continue].
Proof. repeat split; by vm_compute. Qed.

End WorkerProps.

(** ** Further properties of the smoothing filter *)

Module SmoothingMore.
Import Std StdFacts Smoothing SmoothingFacts.

Lemma count_two (l : list ascii) (a b : ascii) :
  a <> b -> count l a + count l b <= length l.
Proof.
  intros Hne. induction l as [|x l IH]; simpl; [done|].
  destruct (Ascii.eqb_spec x a), (Ascii.eqb_spec x b); subst; try done; lia.
Qed.

(** The windows once the same word was read at least [window_size] times:
    every window holds that word's character only. *)
Lemma steady_windows (f : CharacterBasedSmoothingFilter) (w : list ascii)
    (k : nat) :
  wf f -> 1 <= window_size f -> window_size f <= k ->
  exists outs f',
    feed f (replicate k w) = Some (outs, f') /\ wf f' /\
    word_length f' = word_length f /\ window_size f' = window_size f /\
    readings f' = map (replicate (window_size f)) (normalize (word_length f) w).
Proof.
  intros Hwf HN Hk.
  destruct (feed_replicate w k f Hwf HN) as (outs & f' & Hfeed & Hrs).
  destruct (feed_spec (replicate k w) f Hwf HN)
    as (outs' & f'' & Hfeed' & Hwf' & HW' & HN' & _).
  rewrite Hfeed in Hfeed'. injection Hfeed' as <- <-.
  exists outs, f'. repeat split; try done; try apply Hwf'.
  rewrite Hrs. apply list_eq. intros i.
  rewrite lookup_zip_with, list_lookup_fmap.
  destruct (readings f !! i) as [dq|] eqn:Hdq; simpl.
  - destruct (normalize (word_length f) w !! i) as [c|]; simpl; [|done].
    assert (Hlen : length dq = window_size f).
    { destruct Hwf as [_ Hall]. rewrite Forall_forall in Hall. apply Hall.
      apply list_elem_of_lookup. by exists i. }
    rewrite drop_ge by lia. by rewrite Nat.min_r by lia.
  - apply lookup_ge_None in Hdq. rewrite (proj1 Hwf) in Hdq.
    rewrite (lookup_ge_None_2 (normalize _ _)); [done|].
    by rewrite normalize_length.
Qed.

(** X1.  A character that fills more than half of a position's window is
    the one [add_reading] emits for that position. *)
Theorem strict_majority_is_emitted
    (f f' : CharacterBasedSmoothingFilter) (w out window : list ascii)
    (i : nat) (c : ascii) :
  wf f ->
  add_reading f w = Some (out, f') ->
  readings f' !! i = Some window ->
  length window < 2 * count window c ->
  out !! i = Some c.
Proof.
  intros Hwf Hadd Hwin Hmaj.
  pose proof (add_reading_spec f w (proj1 Hwf)) as Hspec.
  rewrite Hadd in Hspec. destruct Hspec as (_ & _ & _ & Hvotes & _).
  destruct (Forall2_lookup_l _ _ _ _ _ Hvotes Hwin) as (m & Hm & Hvote).
  rewrite Hm. f_equal.
  assert (Hfull : window <> []) by (intros ->; simpl in Hmaj; lia).
  pose proof (most_common_char_spec window Hfull) as Hvote'.
  rewrite Hvote in Hvote'.
  destruct Hvote' as (pre & post & Heq & _ & Hall).
  destruct (Ascii.ascii_dec m c) as [-> | Hne]; [done|].
  assert (Hc : c ∈ window).
  { destruct (decide (c ∈ window)) as [|Hnot]; [done|].
    assert (count window c = 0); [|lia].
    clear -Hnot. induction window as [|x l IH]; simpl; [done|].
    destruct (Ascii.eqb_spec x c) as [-> | _].
    - exfalso. apply Hnot. by left.
    - apply IH. intros Hin. apply Hnot. by right. }
  specialize (Hall c Hc).
  pose proof (count_two window m c Hne). lia.
Qed.

Lemma strict_majority_is_emitted_witness :
  ["B"%char] !! 0 = Some "B"%char.
Proof.
  apply (strict_majority_is_emitted
           (mkFilter 1 3 [["A"; "B"; "A"]%char])
           (mkFilter 1 3 [["B"; "A"; "B"]%char])
           ["B"%char] ["B"%char] ["B"; "A"; "B"]%char 0 "B"%char).
  - split; [reflexivity | repeat constructor].
  - reflexivity.
  - reflexivity.
  - simpl. lia.
Defined.

(** X2.  Whatever the filter has read before, once the same word was read
    at least [window_size] times in a row the output is that word, cut or
    padded to [word_length]. *)
Theorem convergence_from_any_state
    (f : CharacterBasedSmoothingFilter) (w : list ascii) (k : nat) :
  wf f -> 1 <= window_size f -> window_size f <= k ->
  last_output f (replicate k w) = Some (normalize (word_length f) w).
Proof.
  intros Hwf HN Hk.
  destruct (last_output_votes f (replicate k w) Hwf HN)
    as (outs & f' & out & Hfeed & -> & Hvotes).
  { destruct k; [lia | done]. }
  destruct (steady_windows f w k Hwf HN Hk)
    as (outs' & f'' & Hfeed' & _ & _ & _ & Hrs).
  rewrite Hfeed in Hfeed'. injection Hfeed' as <- <-.
  rewrite Hrs in Hvotes. f_equal. by apply (votes_uniform (window_size f)).
Qed.

Lemma convergence_from_any_state_witness :
  last_output (mkFilter 2 2 [["x"; "y"]; ["z"; "z"]]%char)
    (replicate 2 ["o"; "k"; "!"]%char)
  = Some (normalize 2 ["o"; "k"; "!"]%char).
Proof.
  apply (convergence_from_any_state
           (mkFilter 2 2 [["x"; "y"]; ["z"; "z"]]%char)).
  - split; [reflexivity | repeat constructor].
  - simpl. lia.
  - simpl. lia.
Defined.

(** X3.  With a window of at least two readings, one deviating reading
    after a steady word does not change the output: a single-frame jitter
    is suppressed. *)
Theorem single_outlier_is_suppressed
    (f : CharacterBasedSmoothingFilter) (u v : list ascii) :
  wf f -> 2 <= window_size f ->
  last_output f (replicate (window_size f) u ++ [v])
    = Some (normalize (word_length f) u).
Proof.
  intros Hwf HN.
  destruct (steady_windows f u (window_size f) Hwf)
    as (outs & f1 & Hfeed & Hwf1 & HW1 & HN1 & Hrs); [lia | lia |].
  rewrite (last_output_app _ f1 _ _ outs Hfeed); [| done | done | lia].
  unfold last_output. simpl.
  pose proof (add_reading_spec f1 v (proj1 Hwf1)) as Hspec.
  destruct (add_reading f1 v) as [[out1 f2]|]; [|done]. simpl.
  destruct Hspec as (_ & _ & Hrs2 & Hvotes & Hlen).
  f_equal. apply list_eq. intros i.
  destruct (out1 !! i) as [c|] eqn:Hc.
  - destruct (votes_lookup _ _ _ _ Hvotes Hc) as (window & Hwin & Hm & _).
    rewrite Hrs2, Hrs, HW1, HN1 in Hwin.
    apply lookup_zip_with_Some in Hwin as (dq & a & -> & Hdq & Ha).
    rewrite list_lookup_fmap in Hdq.
    destruct (normalize (word_length f) u !! i) as [b|]; [|done].
    injection Hdq as <-.
    rewrite push_reading_full in Hm by apply length_replicate.
    destruct (window_size f) as [|N]; [lia|]. simpl in Hm. rewrite drop_0 in Hm.
    assert (Hfull : replicate N b ++ [a] <> [])
      by (by destruct (replicate N b)).
    specialize (Hm Hfull).
    destruct (Ascii.ascii_dec a b) as [-> | Hne].
    + rewrite <- replicate_S_end in Hm.
      by rewrite (earliest_most_common_one_run _ _ _ Hm).
    + change [a] with (replicate 1 a) in Hm.
      apply earliest_most_common_two_runs in Hm; [| done | lia].
      rewrite Hm. destruct (Nat.ltb_spec N 1); [lia | done].
  - symmetry. apply lookup_ge_None. apply lookup_ge_None in Hc.
    rewrite normalize_length. lia.
Qed.

Lemma single_outlier_is_suppressed_witness :
  last_output (new_filter 2 2) (replicate 2 ["4"; "2"]%char ++ [["9"; "9"]%char])
    = Some (normalize 2 ["4"; "2"]%char).
Proof.
  apply (single_outlier_is_suppressed (new_filter 2 2)).
  - split; [reflexivity | repeat constructor].
  - simpl. lia.
Defined.

(** X4.  A window size of 1 makes the filter a pass-through: every call
    returns its input, cut or padded to [word_length]. *)
Theorem window_of_one_passes_through
    (f : CharacterBasedSmoothingFilter) (w : list ascii) :
  wf f -> window_size f = 1 ->
  exists f', add_reading f w = Some (normalize (word_length f) w, f').
Proof.
  intros Hwf HN.
  destruct (add_reading_total f w (proj1 Hwf)) as [[out f'] Hadd].
  pose proof (add_reading_spec f w (proj1 Hwf)) as Hspec.
  rewrite Hadd in Hspec. destruct Hspec as (_ & _ & Hrs & Hvotes & _).
  exists f'. rewrite Hadd. do 2 f_equal. apply (votes_uniform 1); [done|].
  replace (map (replicate 1) (normalize (word_length f) w)) with (readings f');
    [done|].
  rewrite Hrs, HN. apply list_eq. intros i.
  rewrite lookup_zip_with, list_lookup_fmap.
  destruct (readings f !! i) as [dq|] eqn:Hdq; simpl.
  - destruct (normalize (word_length f) w !! i) as [c|]; simpl; [|done].
    assert (Hlen : length dq = 1).
    { destruct Hwf as [_ Hall]. rewrite Forall_forall, HN in Hall. apply Hall.
      apply list_elem_of_lookup. by exists i. }
    rewrite push_reading_full by done.
    destruct dq as [|d [|? ?]]; simpl in *; done.
  - apply lookup_ge_None in Hdq. rewrite (proj1 Hwf) in Hdq.
    rewrite (lookup_ge_None_2 (normalize _ _)); [done|].
    by rewrite normalize_length.
Qed.

Lemma window_of_one_passes_through_witness :
  exists f', add_reading (new_filter 3 1) ["h"; "i"]%char
             = Some (normalize 3 ["h"; "i"]%char, f').
Proof.
  apply (window_of_one_passes_through (new_filter 3 1)).
  - split; [reflexivity | repeat constructor].
  - reflexivity.
Defined.

(** The character a word contributes to position [i]. *)
Lemma feed_windows (ws : list (list ascii)) :
  forall f : CharacterBasedSmoothingFilter,
  wf f -> 1 <= window_size f ->
  exists outs f',
    feed f ws = Some (outs, f') /\
    forall i dq, readings f !! i = Some dq ->
      readings f' !! i
        = Some (drop (length ws)
                  (dq ++ map (fun w => match w !! i with
                                       | Some c => c
                                       | None => SPACE
                                       end) ws)).
Proof.
  induction ws as [|w ws IH]; intros f Hwf HN.
  - exists [], f. split; [done|]. intros i dq Hdq. simpl.
    by rewrite app_nil_r.
  - destruct (add_reading_total f w (proj1 Hwf)) as [[out f1] Hadd].
    pose proof (add_reading_wf f f1 w out Hwf Hadd) as Hwf1.
    pose proof (add_reading_spec f w (proj1 Hwf)) as Hspec.
    rewrite Hadd in Hspec. destruct Hspec as (HW & HN1 & Hrs & _ & _).
    destruct (IH f1 Hwf1 ltac:(lia)) as (outs & f' & Hfeed & Hwin).
    exists (out :: outs), f'. split; [simpl; by rewrite Hadd, Hfeed|].
    intros i dq Hdq.
    assert (Hi : i < word_length f).
    { rewrite <- (proj1 Hwf). by eapply lookup_lt_Some. }
    assert (Hlen : length dq = window_size f).
    { destruct Hwf as [_ Hall]. rewrite Forall_forall in Hall. apply Hall.
      apply list_elem_of_lookup. by exists i. }
    rewrite (Hwin i (push_reading (window_size f) dq
                       (match w !! i with Some c => c | None => SPACE end))).
    2:{ rewrite Hrs, lookup_zip_with, Hdq. simpl.
        by rewrite normalize_lookup. }
    f_equal. rewrite push_reading_full by done. simpl.
    rewrite <- (drop_app_le (dq ++ _)) by (rewrite length_app; simpl; lia).
    rewrite drop_drop, <- app_assoc. done.
Qed.

(** X5.  The filter invents no character: once at least [window_size]
    words were read, every character of the output is the character that
    one of the last [window_size] words has at that position (a space where
    that word is too short). *)
Theorem output_comes_from_recent_readings
    (f : CharacterBasedSmoothingFilter) (ws : list (list ascii))
    (out : list ascii) (i : nat) (c : ascii) :
  wf f -> 1 <= window_size f -> window_size f <= length ws ->
  last_output f ws = Some out ->
  out !! i = Some c ->
  exists w,
    w ∈ drop (length ws - window_size f) ws /\
    c = match w !! i with Some a => a | None => SPACE end.
Proof.
  intros Hwf HN Hlen Hlast Hc.
  destruct (last_output_votes f ws Hwf HN) as (outs & f' & out' & Hfeed & Hlast' & Hvotes).
  { destruct ws; [simpl in Hlen; lia | done]. }
  rewrite Hlast in Hlast'. injection Hlast' as <-.
  destruct (feed_windows ws f Hwf HN) as (outs' & f'' & Hfeed' & Hwin).
  rewrite Hfeed in Hfeed'. injection Hfeed' as <- <-.
  destruct (votes_lookup _ _ _ _ Hvotes Hc) as (window & Hwindow & Hm & _).
  destruct (lookup_lt_is_Some_2 (readings f) i) as [dq Hdq].
  { rewrite (proj1 Hwf).
    apply lookup_lt_Some in Hwindow.
    destruct (feed_spec ws f Hwf HN) as (o & g & Hg & Hwfg & HWg & _).
    rewrite Hfeed in Hg. injection Hg as <- <-.
    rewrite (proj1 Hwfg) in Hwindow. lia. }
  rewrite (Hwin i dq Hdq) in Hwindow. injection Hwindow as <-.
  assert (Hdqlen : length dq = window_size f).
  { destruct Hwf as [_ Hall]. rewrite Forall_forall in Hall. apply Hall.
    apply list_elem_of_lookup. by exists i. }
  assert (Hfull : drop (length ws)
                    (dq ++ map (fun w => match w !! i with
                                         | Some c => c
                                         | None => SPACE
                                         end) ws) <> []).
  { intros Hnil. apply (f_equal length) in Hnil.
    rewrite length_drop, length_app, length_map in Hnil. simpl in Hnil. lia. }
  apply Hm, earliest_most_common_elem in Hfull. clear Hm. rename Hfull into Hm.
  rewrite drop_app_ge in Hm by lia. rewrite Hdqlen in Hm.
  rewrite <- fmap_drop in Hm.
  apply list_elem_of_fmap in Hm as (w & -> & Hw). by exists w.
Qed.

Lemma output_comes_from_recent_readings_witness :
  exists w,
    w ∈ drop (3 - 2) [["a"]; ["b"]; ["b"]]%char /\
    "b"%char = match w !! 0 with Some a => a | None => SPACE end.
Proof.
  apply (output_comes_from_recent_readings (new_filter 1 2)
           [["a"]; ["b"]; ["b"]]%char ["b"%char] 0 "b"%char).
  - split; [reflexivity | repeat constructor].
  - simpl. lia.
  - simpl. lia.
  - reflexivity.
  - reflexivity.
Defined.

End SmoothingMore.

(** ** Properties of [strip] and of [run_tesseract_ocr] *)

Module RecognitionMore.
Import Recognition.

Local Open Scope nat_scope.

(** [find_first_not_of]: the length of the leading run of stripped
    characters, when the run ends inside the string. *)
Lemma find_first_not_of_spec (str : list ascii) :
  forall i,
  match find_first_not_of str i with
  | Some n =>
      exists k c, n = i + k /\ str !! k = Some c /\ is_strip_char c = false /\
                  Forall (fun a => is_strip_char a = true) (take k str)
  | None => Forall (fun a => is_strip_char a = true) str
  end.
Proof.
  induction str as [|c str IH]; intros i; simpl; [constructor|].
  destruct (is_strip_char c) eqn:Hc.
  - specialize (IH (S i)). destruct (find_first_not_of str (S i)) as [n|].
    + destruct IH as (k & a & -> & Hk & Ha & Hall).
      exists (S k), a. split; [lia|]. split; [done|]. split; [done|].
      simpl. by constructor.
    + by constructor.
  - exists 0, c. split; [lia|]. split; [done|]. split; [done|]. constructor.
Qed.

(** [find_last_not_of]: the last position that holds a character that is
    not stripped; [found] when there is none. *)
Lemma find_last_not_of_spec (str : list ascii) :
  forall i found,
  (find_last_not_of str i found = found /\
   Forall (fun a => is_strip_char a = true) str) \/
  exists k c, find_last_not_of str i found = Some (i + k) /\
              str !! k = Some c /\ is_strip_char c = false /\
              Forall (fun a => is_strip_char a = true) (drop (S k) str).
Proof.
  induction str as [|c str IH]; intros i found; simpl.
  - left. split; [done | constructor].
  - destruct (is_strip_char c) eqn:Hc.
    + destruct (IH (S i) found) as [[Heq Hall] | (k & a & Heq & Hk & Ha & Hall)].
      * left. split; [done | by constructor].
      * right. exists (S k), a. split; [|done].
        rewrite Heq. f_equal. lia.
    + destruct (IH (S i) (Some i)) as [[Heq Hall] | (k & a & Heq & Hk & Ha & Hall)].
      * right. exists 0, c. split; [|done].
        rewrite Heq. f_equal. lia.
      * right. exists (S k), a. split; [|done].
        rewrite Heq. f_equal. lia.
Qed.

Lemma strip_decomposition (str : list ascii) :
  exists before after,
    str = before ++ strip str ++ after /\
    Forall (fun a => is_strip_char a = true) before /\
    Forall (fun a => is_strip_char a = true) after /\
    (forall c, head (strip str) = Some c -> is_strip_char c = false) /\
    (forall c, last (strip str) = Some c -> is_strip_char c = false).
Proof.
  unfold strip.
  pose proof (find_first_not_of_spec str 0) as Hfirst.
  destruct (find_first_not_of str 0) as [start|].
  2:{ exists str, []. rewrite app_nil_r. destruct (find_last_not_of str 0 None);
        repeat split; try done; constructor. }
  destruct Hfirst as (k1 & c1 & -> & Hk1 & Hc1 & Hbefore). simpl.
  destruct (find_last_not_of_spec str 0 None)
    as [[_ Hall] | (k2 & c2 & -> & Hk2 & Hc2 & Hafter)].
  { rewrite Forall_forall in Hall.
    assert (is_strip_char c1 = true); [|congruence].
    apply Hall. apply list_elem_of_lookup. by exists k1. }
  simpl.
  assert (Hle : k1 <= k2).
  { destruct (Nat.le_gt_cases k1 k2) as [|Hgt]; [done|].
    rewrite Forall_forall in Hafter.
    assert (is_strip_char c1 = true); [|congruence].
    apply Hafter. apply list_elem_of_lookup. exists (k1 - S k2).
    rewrite lookup_drop. replace (S k2 + (k1 - S k2)) with k1 by lia. done. }
  pose proof (lookup_lt_Some _ _ _ Hk2) as Hlt.
  unfold substr. exists (take k1 str), (drop (S k2) str).
  assert (Hsplit : drop k1 str = take (k2 - k1 + 1) (drop k1 str) ++ drop (S k2) str).
  { rewrite <- (take_drop (k2 - k1 + 1) (drop k1 str)) at 1.
    rewrite drop_drop. do 2 f_equal. lia. }
  split; [|split; [done|split; [done|split]]].
  - rewrite <- Hsplit. by rewrite take_drop.
  - intros c Hc. rewrite head_lookup in Hc.
    rewrite lookup_take_lt, lookup_drop in Hc by lia.
    rewrite Nat.add_0_r in Hc. congruence.
  - intros c Hc. rewrite last_lookup in Hc.
    rewrite length_take, length_drop in Hc.
    rewrite lookup_take_lt, lookup_drop in Hc by lia.
    replace (k1 + pred ((k2 - k1 + 1) `min` (length str - k1))) with k2 in Hc by lia.
    congruence.
Qed.

(** X6.  [strip] cuts a run of blanks, tabs, line feeds and carriage
    returns off each end and nothing else: the input is a stripped run, the
    result, and a stripped run, and the result neither begins nor ends with
    a stripped character. *)
Theorem strip_removes_outer_whitespace_only (str : list ascii) :
  exists before after,
    str = before ++ strip str ++ after /\
    Forall (fun a => is_strip_char a = true) before /\
    Forall (fun a => is_strip_char a = true) after /\
    (forall c, head (strip str) = Some c -> is_strip_char c = false) /\
    (forall c, last (strip str) = Some c -> is_strip_char c = false).
Proof. apply strip_decomposition. Qed.

(** X7.  [strip] leaves a string alone that is empty or begins and ends
    with characters it does not strip; hence stripping twice is stripping
    once. *)
Theorem strip_is_idempotent (str : list ascii) :
  strip (strip str) = strip str /\
  ((forall c, head str = Some c -> is_strip_char c = false) ->
   (forall c, last str = Some c -> is_strip_char c = false) ->
   strip str = str).
Proof.
  assert (Hfix : forall t : list ascii,
            (forall c, head t = Some c -> is_strip_char c = false) ->
            (forall c, last t = Some c -> is_strip_char c = false) ->
            strip t = t).
  { intros t Hhead Hlast. unfold strip.
    destruct t as [|c t]; [done|].
    pose proof (Hhead c eq_refl) as Hc. simpl. rewrite Hc.
    destruct (find_last_not_of_spec t 1 (Some 0))
      as [[-> Hall] | (k & a & -> & Hk & Ha & Hafter)].
    - unfold substr. simpl. f_equal.
      destruct t as [|d t]; [done|]. exfalso.
      assert (Hd : exists e, last (c :: d :: t) = Some e) by
        (rewrite last_lookup; apply lookup_lt_is_Some_2; simpl; lia).
      destruct Hd as [e He]. specialize (Hlast e He).
      rewrite Forall_forall in Hall.
      assert (is_strip_char e = true); [|congruence].
      apply Hall. rewrite last_cons_cons in He.
      rewrite last_lookup in He. apply list_elem_of_lookup. eauto.
    - unfold substr. simpl. f_equal.
      destruct (Nat.lt_ge_cases (S k) (length t)) as [Hlt | Hge].
      + exfalso.
        assert (He : exists e, last (c :: t) = Some e) by
          (rewrite last_lookup; apply lookup_lt_is_Some_2; simpl; lia).
        destruct He as [e He]. specialize (Hlast e He).
        rewrite Forall_forall in Hafter.
        assert (is_strip_char e = true); [|congruence].
        apply Hafter. rewrite last_lookup in He. simpl in He.
        apply list_elem_of_lookup. exists (length t - S k - 1).
        rewrite lookup_drop.
        destruct t as [|d t]; [simpl in Hlt; lia|]. simpl in He.
        change (length (d :: t)) with (S (length t)) in *.
        replace (S k + (S (length t) - S k - 1)) with (length t) by lia.
        done.
      + apply take_ge. lia. }
  split; [|apply Hfix].
  destruct (strip_decomposition str) as (_ & _ & _ & _ & _ & Hh & Hl).
  by apply Hfix.
Qed.

Lemma strip_is_idempotent_witness :
  strip ["a"; " "; "b"]%char = ["a"; " "; "b"]%char.
Proof.
  apply (proj2 (strip_is_idempotent ["a"; " "; "b"]%char)).
  - intros c [= <-]. reflexivity.
  - intros c [= <-]. reflexivity.
Defined.

(** X8.  With smoothing enabled, a recognition that passes the confidence
    check is stripped and read by the filter, and the text returned has
    exactly [word_length] characters, whatever was recognised, a blank text
    included. *)
Theorem smoothed_result_has_word_length `{Tesseract}
    (tf : filter_data) (image : Cv.Mat) (text_ : list ascii)
    (f : Smoothing.CharacterBasedSmoothingFilter) :
  GetUTF8Text {| Tess.image := image |} = Some text_ ->
  (conf_threshold (config tf) <= MeanTextConf {| Tess.image := image |})%Z ->
  enable_smoothing (config tf) = true ->
  smoothing_filter tf = Some f ->
  Smoothing.wf f -> 1 <= Smoothing.window_size f ->
  exists out f',
    run_tesseract_ocr tf image
      = (Normal out,
         set_smoothing_filter (Some f')
           (set_tesseract_model {| Tess.image := image |} tf)) /\
    Smoothing.add_reading f (strip text_) = Some (out, f') /\
    length out = Smoothing.word_length f /\
    Smoothing.wf f'.
Proof.
  intros Htext Hconf Hon Hf Hwf HN.
  destruct (SmoothingFacts.add_reading_total f (strip text_) (proj1 Hwf))
    as [[out f'] Hadd].
  pose proof (SmoothingFacts.add_reading_spec f (strip text_) (proj1 Hwf)) as Hspec.
  rewrite Hadd in Hspec. destruct Hspec as (_ & _ & _ & _ & Hlen).
  exists out, f'. split; [|split; [done|split; [done|]]].
  - unfold run_tesseract_ocr. simpl. rewrite Htext.
    destruct (Z.ltb_spec (MeanTextConf {| Tess.image := image |})
                (conf_threshold (config tf))); [lia|].
    by rewrite Hon, Hf, Hadd.
  - by apply (SmoothingFacts.add_reading_wf f f' (strip text_) out).
Qed.

Lemma smoothed_result_has_word_length_witness :
  let tf :=
    Sim.instance_ (Sim.settings false 15 60 []) Cv.Mat_default Cv.Mat_default in
  exists out f',
    @run_tesseract_ocr (Sim.backend (Some [" "%char]) 80 None) tf Cv.Mat_default
      = (Normal out,
         set_smoothing_filter (Some f')
           (set_tesseract_model {| Tess.image := Cv.Mat_default |} tf)) /\
    Smoothing.add_reading (Smoothing.new_filter 2 1) (strip [" "%char])
      = Some (out, f') /\
    length out = Smoothing.word_length (Smoothing.new_filter 2 1) /\
    Smoothing.wf f'.
Proof.
  intros tf.
  apply (@smoothed_result_has_word_length (Sim.backend (Some [" "%char]) 80 None)
           tf Cv.Mat_default [" "%char] (Smoothing.new_filter 2 1)).
  - reflexivity.
  - vm_compute. discriminate.
  - reflexivity.
  - reflexivity.
  - split; [reflexivity | repeat constructor].
  - simpl. lia.
Defined.

End RecognitionMore.

(** ** Further properties of the region filter *)

Module RegionMore.
Import Regions RegionProps.

Local Open Scope Z_scope.

(** X9.  An image whose half area is below 100 pixels yields no box at all,
    whatever the backend found. *)
Theorem small_image_has_no_boxes `{Tesseract} (tf : filter_data)
    (imageSize : Cv.Size) :
  half_image_area imageSize < 100 ->
  extract_text_detection_boxes tf imageSize = [].
Proof.
  intros Hsmall. rewrite extract_text_detection_boxes_filter.
  induction (visited tf) as [|e l IH]; simpl; [done|].
  destruct (kept tf (iteration_level tf) imageSize e) eqn:Hkept; [|done].
  apply kept_true in Hkept as (_ & _ & Harea). lia.
Qed.

Lemma small_image_has_no_boxes_witness :
  @extract_text_detection_boxes (Sim.backend None 0 (Some Sim.sample_iterator))
    (Sim.instance_ (Sim.settings false 15 60 []) Cv.Mat_default Cv.Mat_default)
    (19, 10) = [].
Proof.
  apply (@small_image_has_no_boxes
           (Sim.backend None 0 (Some Sim.sample_iterator))).
  vm_compute. reflexivity.
Defined.

Lemma filter_sublist {A : Type} (p q : A -> bool) (l : list A) :
  (forall a, p a = true -> q a = true) ->
  sublist (List.filter p l) (List.filter q l).
Proof.
  intros Himp. induction l as [|a l IH]; simpl; [constructor|].
  destruct (p a) eqn:Hp.
  - rewrite (Himp a Hp). by constructor.
  - destruct (q a); [by constructor | done].
Qed.

(** X10.  Raising the confidence threshold never adds a box: for the same
    backend result and page segmentation mode, the boxes returned under the
    higher threshold are a sublist, in order, of those returned under the
    lower one; at symbol level the threshold plays no part. *)
Theorem boxes_shrink_with_threshold `{Tesseract} (tf1 tf2 : filter_data)
    (imageSize : Cv.Size) :
  tesseract_model tf1 = tesseract_model tf2 ->
  pageSegmentationMode (config tf1) = pageSegmentationMode (config tf2) ->
  conf_threshold (config tf1) <= conf_threshold (config tf2) ->
  sublist (extract_text_detection_boxes tf2 imageSize)
          (extract_text_detection_boxes tf1 imageSize) /\
  (pageSegmentationMode (config tf1) = Tess.PSM_SINGLE_CHAR ->
   extract_text_detection_boxes tf2 imageSize
     = extract_text_detection_boxes tf1 imageSize).
Proof.
  intros Hmodel Hpsm Hle. rewrite !extract_text_detection_boxes_filter.
  assert (Hlevel : iteration_level tf2 = iteration_level tf1).
  { unfold iteration_level. by rewrite Hpsm. }
  assert (Hvisited : visited tf2 = visited tf1).
  { unfold visited. by rewrite Hmodel, Hlevel. }
  rewrite Hvisited, Hlevel. split.
  - apply (fmap_sublist box_of), filter_sublist. intros e He.
    apply kept_true in He as (Hempty & Hconf & Harea).
    apply kept_true. split; [done|]. split; [|done].
    intros Hword. specialize (Hconf Hword). lia.
  - intros Hsymbol. f_equal. apply filter_ext. intros e.
    unfold kept, iteration_level. rewrite Hsymbol, Z.eqb_refl. done.
Qed.

Lemma boxes_shrink_with_threshold_witness :
  let backend_ := Sim.backend None 0 (Some Sim.sample_iterator) in
  let tf1 :=
    Sim.instance_ (Sim.settings false 15 60 []) Cv.Mat_default Cv.Mat_default in
  let tf2 :=
    Sim.instance_ (Sim.settings false 15 75 []) Cv.Mat_default Cv.Mat_default in
  sublist (@extract_text_detection_boxes backend_ tf2 (100, 100))
          (@extract_text_detection_boxes backend_ tf1 (100, 100)).
Proof.
  intros backend_ tf1 tf2.
  apply (@boxes_shrink_with_threshold backend_ tf1 tf2 (100, 100)).
  - reflexivity.
  - reflexivity.
  - vm_compute. discriminate.
Defined.

End RegionMore.

(** ** Further properties of the worker *)

Module WorkerMore.
Import Worker WorkerFacts Observed.

Local Open Scope Z_scope.

Section Effects.

Context `{OpenCV} `{Tesseract} `{Host}.

Lemma bind_quiet {A B : Type} (m : Exec A) (k : A -> Exec B) :
  quiet m -> (forall a, quiet (k a)) -> quiet (bind m k).
Proof.
  intros Hm Hk s. unfold bind. destruct (Hm s) as [Hr Hp].
  destruct (m s) as [[a| |] s1]; simpl in *; [|done|done].
  destruct (Hk a s1) as [Hr' Hp']. split; congruence.
Qed.

Lemma ret_quiet {A : Type} (a : A) : quiet (ret a).
Proof. by intros s. Qed.

Lemma lift_quiet {A : Type} (o : outcome A) : quiet (lift o).
Proof. by intros s. Qed.

Lemma get_tf_quiet : quiet get_tf.
Proof. by intros s. Qed.

Lemma set_outputPreviewBGRA_quiet (m : Cv.Mat) :
  quiet (modify_tf (set_outputPreviewBGRA m)).
Proof. by intros s. Qed.

Lemma set_lastInputBGRA_quiet (m : Cv.Mat) :
  quiet (modify_tf (set_lastInputBGRA m)).
Proof. by intros s. Qed.

Ltac quiet_steps :=
  repeat first
    [ apply ret_quiet | apply lift_quiet | apply get_tf_quiet
    | apply set_outputPreviewBGRA_quiet | apply set_lastInputBGRA_quiet
    | apply bind_quiet; [|intros]
    | match goal with
      | |- quiet (if ?b then _ else _) => destruct b
      | |- quiet (match ?x with _ => _ end) => destruct x
      end ].

Lemma skip_processing_quiet (m : Cv.Mat) : quiet (skip_processing m).
Proof. intros s. by rewrite skip_processing_state. Qed.

Lemma binarize_quiet (m : Cv.Mat) : quiet (binarize m).
Proof. unfold binarize. quiet_steps. Qed.

Lemma dilate_step_quiet (m : Cv.Mat) : quiet (dilate_step m).
Proof. unfold dilate_step. quiet_steps. Qed.

Lemma preview_step_quiet (m : Cv.Mat) : quiet (preview_step m).
Proof. unfold preview_step. quiet_steps. Qed.

Lemma rescale_step_quiet (m : Cv.Mat) : quiet (rescale_step m).
Proof. unfold rescale_step. quiet_steps. Qed.

Lemma draw_boxes_quiet (boxes : list OCRBox) :
  forall m : Cv.Mat, quiet (draw_boxes m boxes).
Proof.
  induction boxes as [|b boxes IH]; intros m; simpl; [apply ret_quiet|].
  apply bind_quiet; [apply lift_quiet | intros; apply IH].
Qed.

(** Recognition publishes nothing; a non-empty result means a text that
    reached the confidence threshold. *)
Lemma recognize_step_effect (image : Cv.Mat) (s : thread_state) :
  read_only (tf (snd (recognize_step image s))) = read_only (tf s) /\
  published (snd (recognize_step image s)) = published s /\
  tesseract_model (tf (snd (recognize_step image s)))
    = {| Tess.image := image |} /\
  (forall out, fst (recognize_step image s) = Normal out -> out <> [] ->
     confident (tf (snd (recognize_step image s)))).
Proof.
  unfold recognize_step, Recognition.run_tesseract_ocr, confident. simpl.
  destruct (GetUTF8Text {| Tess.image := image |}) as [t|] eqn:Ht; simpl.
  2:{ do 3 (split; [done|]). by intros out [= <-]. }
  destruct (Z.ltb_spec (MeanTextConf {| Tess.image := image |})
              (conf_threshold (config (tf s)))) as [Hlow | Hconf]; simpl.
  { do 3 (split; [done|]). by intros out [= <-]. }
  destruct (enable_smoothing (config (tf s))); simpl.
  - destruct (smoothing_filter (tf s)) as [f|]; simpl.
    2:{ do 3 (split; [done|]). by intros out. }
    destruct (Smoothing.add_reading f (Recognition.strip t)) as [[sm f']|]; simpl.
    + do 3 (split; [done|]). intros out _ _. by rewrite Ht.
    + do 3 (split; [done|]). by intros out.
  - do 3 (split; [done|]). intros out _ _. by rewrite Ht.
Qed.

Lemma draw_boxes_state (boxes : list OCRBox) :
  forall (m : Cv.Mat) (s : thread_state), snd (draw_boxes m boxes s) = s.
Proof.
  induction boxes as [|b boxes IH]; intros m s; simpl; [done|].
  unfold bind, lift. destruct (rectangle _ _ _ _); simpl; [apply IH|done|done].
Qed.

(** The image-sink step: the filter instance is untouched and at most one
    image is published, only when the step completes. *)
Lemma detection_output_step_effect (imageBGRA : Cv.Mat) (s : thread_state) :
  tf (snd (detection_output_step imageBGRA s)) = tf s /\
  (published (snd (detection_output_step imageBGRA s)) = published s \/
   exists m,
     published (snd (detection_output_step imageBGRA s))
       = published s ++ [setTextDetectionMaskCallback m] /\
     fst (detection_output_step imageBGRA s) = Normal tt).
Proof.
  set (r := detection_output_step imageBGRA s).
  assert (Hr : r = detection_output_step imageBGRA s) by done. clearbody r.
  unfold detection_output_step, bind, get_tf, publish, lift in Hr. simpl in Hr.
  destruct (is_valid_output_source_name _); [|subst r; by split; [|left]].
  destruct (output_image_option (config (tf s))).
  - pose proof (draw_boxes_state
                  (Regions.extract_text_detection_boxes (tf s) (Cv.size imageBGRA))
                  (Cv.Mat_filled (Cv.rows imageBGRA) (Cv.cols imageBGRA)
                     [0; 0; 0; 255]) s) as Hs.
    destruct (draw_boxes _ _ s) as [[m| |] s1]; simpl in Hs; subst s1 r; simpl.
    + split; [done|]. right. by exists m.
    + by split; [|left].
    + by split; [|left].
  - destruct (render_boxes_with_qtextdocument _ _ _ _) as [m| |]; subst r; simpl.
    + split; [done|]. right. by exists m.
    + by split; [|left].
    + by split; [|left].
  - destruct (render_boxes_with_qtextdocument _ _ _ _) as [m| |]; subst r; simpl.
    + split; [done|]. right. by exists m.
    + by split; [|left].
    + by split; [|left].
Qed.

(** The text-sink step: the filter instance is untouched and at most one
    text is published, only for a non-empty result and only when the step
    completes. *)
Lemma text_output_step_effect (ocr_result : list ascii) (s : thread_state) :
  tf (snd (text_output_step ocr_result s)) = tf s /\
  (published (snd (text_output_step ocr_result s)) = published s \/
   exists t,
     published (snd (text_output_step ocr_result s))
       = published s ++ [setTextCallback t] /\
     fst (text_output_step ocr_result s) = Normal tt /\
     ocr_result <> []).
Proof.
  set (r := text_output_step ocr_result s).
  assert (Hr : r = text_output_step ocr_result s) by done. clearbody r.
  unfold text_output_step, bind, get_tf, lift, publish in Hr. simpl in Hr.
  destruct ocr_result as [|c l]; simpl in Hr; [subst r; by split; [|left]|].
  destruct (is_valid_output_source_name _); [|subst r; by split; [|left]].
  destruct (format_text_with_template (c :: l) (tf s)) as [t| |];
    subst r; simpl.
  - split; [done|]. right. by exists t.
  - by split; [|left].
  - by split; [|left].
Qed.

Lemma no_events_effect (s s1 : thread_state) (o : outcome body_exit) :
  read_only (tf s1) = read_only (tf s) -> published s1 = published s ->
  body_effect s (o, s1).
Proof.
  intros Hr Hp. split; [done|]. exists []. simpl. rewrite app_nil_r.
  split; [done|]. split; [done|]. split; [constructor|].
  split; [constructor|]. intros Hex. by apply Exists_nil in Hex.
Qed.

Lemma bind_quiet_effect {A : Type} (m : Exec A) (k : A -> Exec body_exit) :
  quiet m -> (forall a s, body_effect s (k a s)) ->
  forall s, body_effect s (bind m k s).
Proof.
  intros Hm Hk s. unfold bind. destruct (Hm s) as [Hr Hp].
  destruct (m s) as [[a| |] s1]; simpl in *;
    [|by apply no_events_effect|by apply no_events_effect].
  destruct (Hk a s1) as (Hr' & evs & Hp' & Hrest).
  split; [congruence|]. exists evs. split; [congruence | done].
Qed.

Lemma recognize_and_publish_effect (imageBGRA image : Cv.Mat)
    (s : thread_state) :
  body_effect s (recognize_and_publish imageBGRA image s).
Proof.
  unfold recognize_and_publish.
  pose proof (recognize_step_effect image s) as (Hro1 & Hp1 & _ & Hconf1).
  unfold bind at 1.
  destruct (recognize_step image s) as [[out| |] s1]; simpl in *;
    [|by apply no_events_effect|by apply no_events_effect].
  pose proof (detection_output_step_effect imageBGRA s1) as (Htf2 & Hp2).
  unfold bind at 1.
  destruct (detection_output_step imageBGRA s1) as [[[]| |] s2]; simpl in *.
  all: assert (Hro2 : read_only (tf s2) = read_only (tf s))
         by (by rewrite Htf2).
  2,3: destruct Hp2 as [Hp2 | (m & _ & [=])];
       apply no_events_effect; congruence.
  pose proof (text_output_step_effect out s2) as (Htf3 & Hp3).
  unfold bind at 1.
  destruct (text_output_step out s2) as [[[]| |] s3]; simpl in *.
  all: assert (Hro3 : read_only (tf s3) = read_only (tf s))
         by (by rewrite Htf3).
  2,3: destruct Hp3 as [Hp3 | (t & _ & [=] & _)];
       (split; [exact Hro3|]);
       destruct Hp2 as [Hp2 | (m & Hp2 & _)];
       [ exists [] | exists [setTextDetectionMaskCallback m] ];
       simpl; rewrite ?app_nil_r;
       (split; [congruence|]); (split; [done|]);
       (split; [repeat constructor|]); (split; [intros _; repeat constructor|]);
       intros Hex; try (apply Exists_cons in Hex as [[=] | Hex]);
       by apply Exists_nil in Hex.
  split; [exact Hro3|]. simpl.
  assert (Hconf : out <> [] -> confident (tf s3)).
  { intros Hne. rewrite Htf3, Htf2. by apply (Hconf1 out). }
  destruct Hp2 as [Hp2 | (m & Hp2 & _)], Hp3 as [Hp3 | (t & Hp3 & _ & Hne)].
  - exists []. rewrite app_nil_r. split; [congruence|]. split; [done|].
    split; [constructor|]. split; [done|].
    intros Hex. by apply Exists_nil in Hex.
  - exists [setTextCallback t]. split; [congruence|]. split; [done|].
    split; [repeat constructor|]. split; [done|]. intros _. by apply Hconf.
  - exists [setTextDetectionMaskCallback m]. split; [congruence|].
    split; [done|]. split; [repeat constructor|]. split; [done|].
    intros Hex. apply Exists_cons in Hex as [[=] | Hex].
    by apply Exists_nil in Hex.
  - exists [setTextDetectionMaskCallback m; setTextCallback t].
    split; [by rewrite Hp3, Hp2, Hp1, <- app_assoc|]. split; [done|].
    split; [repeat constructor|]. split; [done|]. intros _. by apply Hconf.
Qed.

Lemma process_frame_effect (imageBGRA : Cv.Mat) (s : thread_state) :
  body_effect s (process_frame imageBGRA s).
Proof.
  revert s. unfold process_frame.
  apply bind_quiet_effect; [apply skip_processing_quiet|].
  intros [|] s.
  - split; [done|]. exists []. simpl. rewrite app_nil_r.
    split; [done|]. split; [done|]. split; [constructor|].
    split; [constructor|]. intros Hex. by apply Exists_nil in Hex.
  - revert s. unfold process_changed_frame.
    apply bind_quiet_effect; [apply set_lastInputBGRA_quiet|]. intros _.
    apply bind_quiet_effect; [apply binarize_quiet|]. intros a.
    apply bind_quiet_effect; [apply dilate_step_quiet|]. intros b.
    apply bind_quiet_effect; [apply preview_step_quiet|]. intros _.
    apply bind_quiet_effect; [apply rescale_step_quiet|]. intros c.
    apply recognize_and_publish_effect.
Qed.

Lemma log_after_events (evs : list sink_event) :
  pass_events evs = true ->
  Forall (fun e => is_log e = false) evs ->
  Forall (fun e => is_text e = false) evs ->
  pass_events (evs ++ [obs_log_error]) = true /\
  ~ Exists (fun e => is_text e = true) (evs ++ [obs_log_error]).
Proof.
  intros Hshape Hnolog Hnotext. split.
  - destruct evs as [|e1 [|e2 [|e3 l]]]; simpl in *;
      repeat match goal with
             | Hall : Forall _ (_ :: _) |- _ =>
                 apply Forall_cons in Hall as [? ?]
             end;
      repeat match goal with
             | e : sink_event |- _ => destruct e
             end; simpl in *; done.
  - apply Forall_Exists_neg. apply Forall_app. split.
    + eapply Forall_impl; [exact Hnotext|]. simpl. intros e He. by rewrite He.
    + by repeat constructor.
Qed.

(** One pass: the read-only part is as before and the events added are
    those of a pass; a text among them comes from a confident recognition. *)
Lemma loop_iteration_effect (inp : iteration_input) (s : thread_state) :
  read_only (tf (snd (loop_iteration inp s))) = read_only (tf s) /\
  exists evs,
    published (snd (loop_iteration inp s)) = published s ++ evs /\
    pass_events evs = true /\
    (Exists (fun e => is_text e = true) evs ->
     confident (tf (snd (loop_iteration inp s)))).
Proof.
  assert (Hnone : forall s0 : thread_state,
            read_only (tf s0) = read_only (tf s0) /\
            exists evs, published s0 = published s0 ++ evs /\
                        pass_events evs = true /\
                        (Exists (fun e => is_text e = true) evs ->
                         confident (tf s0))).
  { intros s0. split; [done|]. exists []. rewrite app_nil_r.
    split; [done|]. split; [done|]. intros Hex. by apply Exists_nil in Hex. }
  unfold loop_iteration.
  destruct (negb (tesseract_thread_run (tf s))); [apply Hnone|].
  destruct (negb (Cv.empty (snapshot inp s))).
  2:{ destruct (0 <? sleep_time_ms (tf s) inp); apply Hnone. }
  unfold try_catch.
  pose proof (process_frame_effect (snapshot inp s) s)
    as (Hro & evs & Hp & Hshape & Hnolog & Hnotext & Hconf).
  destruct (process_frame (snapshot inp s) s) as [[[|]| |] s1]; simpl in *.
  - split; [done|]. exists evs. by split; [|split].
  - destruct (0 <? sleep_time_ms (tf s1) inp); simpl;
      (split; [done|]); exists evs; by split; [|split].
  - destruct (log_after_events evs Hshape Hnolog (Hnotext ltac:(discriminate)))
      as [Hshape' Hnotext'].
    destruct (0 <? sleep_time_ms _ inp); simpl;
      (split; [done|]); exists (evs ++ [obs_log_error]);
      (split; [rewrite Hp; by rewrite <- app_assoc|]); by split.
  - split; [done|]. exists evs. by split; [|split].
Qed.

(** A pass left through [continue] is one whose frame the change check
    declared unchanged. *)
Lemma continue_means_skip (inp : iteration_input) (s : thread_state) :
  fst (loop_iteration inp s) = Continue ->
  tesseract_thread_run (tf s) = true /\
  Cv.empty (snapshot inp s) = false /\
  fst (skip_processing (snapshot inp s) s) = Normal true.
Proof.
  intros Hexit.
  destruct (tesseract_thread_run (tf s)) eqn:Hrun.
  2:{ unfold loop_iteration in Hexit. by rewrite Hrun in Hexit. }
  destruct (Cv.empty (snapshot inp s)) eqn:Hempty.
  { rewrite (loop_iteration_no_frame inp s Hrun Hempty) in Hexit.
    by destruct (0 <? sleep_time_ms (tf s) inp). }
  pose proof (loop_iteration_cases inp s Hrun Hempty) as Hcases.
  destruct (fst (skip_processing (snapshot inp s) s)) as [[|]| |]; try done.
  - by destruct Hcases.
  - by destruct Hcases.
  - by rewrite Hcases in Hexit.
Qed.

End Effects.

Lemma pass_keeps_shared_inputs_aux `{OpenCV} `{Tesseract} `{Host}
    (inp : iteration_input) (s : thread_state) :
  config (tf (snd (loop_iteration inp s))) = config (tf s) /\
  inputBGRA (tf (snd (loop_iteration inp s))) = inputBGRA (tf s) /\
  tesseract_thread_run (tf (snd (loop_iteration inp s)))
    = tesseract_thread_run (tf s).
Proof.
  destruct (loop_iteration_effect inp s) as [Hro _].
  unfold read_only in Hro. by injection Hro as -> -> ->.
Qed.

(** X11.  A pass of the worker never writes the settings, the shared input
    frame or the run flag. *)
Theorem pass_keeps_shared_inputs `{OpenCV} `{Tesseract} `{Host}
    (inp : iteration_input) (s : thread_state) :
  config (tf (snd (loop_iteration inp s))) = config (tf s) /\
  inputBGRA (tf (snd (loop_iteration inp s))) = inputBGRA (tf s) /\
  tesseract_thread_run (tf (snd (loop_iteration inp s)))
    = tesseract_thread_run (tf s).
Proof. apply pass_keeps_shared_inputs_aux. Qed.

(** X12.  A pass publishes at most one image and then at most one text;
    when it logs an error it logs it once, last, and publishes no text. *)
Theorem pass_publishes_at_most_one_of_each `{OpenCV} `{Tesseract} `{Host}
    (inp : iteration_input) (s : thread_state) :
  exists evs,
    published (snd (loop_iteration inp s)) = published s ++ evs /\
    pass_events evs = true.
Proof.
  destruct (loop_iteration_effect inp s) as (_ & evs & Hp & Hshape & _).
  by exists evs.
Qed.

(** X13.  The text sink only receives confident results: when a pass
    publishes a text, the backend holds a text for the image it was given
    and its mean confidence is at or above the threshold. *)
Theorem published_text_is_confident `{OpenCV} `{Tesseract} `{Host}
    (inp : iteration_input) (s : thread_state) (evs : list sink_event)
    (t : list ascii) :
  published (snd (loop_iteration inp s)) = published s ++ evs ->
  setTextCallback t ∈ evs ->
  confident (tf (snd (loop_iteration inp s))).
Proof.
  intros Hevs Hin.
  destruct (loop_iteration_effect inp s) as (_ & evs0 & Hp & _ & Hconf).
  rewrite Hp in Hevs. apply app_inv_head in Hevs as ->.
  apply Hconf. apply Exists_exists. by exists (setTextCallback t).
Qed.

Lemma published_text_is_confident_witness :
  let s := Sim.state (Sim.settings false 15 60 [])
             (Sim.flat_frame 3 3 9) (Sim.flat_frame 3 3 7) in
  let backend_ := Sim.backend (Some ["h"; "i"]%char) 80 None in
  @confident backend_
    (tf (snd (@loop_iteration Sim.opencv backend_ Sim.host Sim.pass s))).
Proof.
  intros s backend_.
  apply (@published_text_is_confident Sim.opencv backend_ Sim.host Sim.pass s
           [setTextCallback ["h"; "i"]%char] ["h"; "i"]%char).
  - reflexivity.
  - apply list_elem_of_In. left. reflexivity.
Defined.

(** X14.  A pass that waits, waits for the period less the whole
    milliseconds the pass took, which is more than nothing and never more
    than the period; a pass that reaches the sleep step without waiting took
    the period or longer. *)
Theorem wait_is_rest_of_period `{OpenCV} `{Tesseract} `{Host}
    (inp : iteration_input) (s : thread_state) :
  let period := update_timer_ms (config (tf s)) in
  let elapsed_ms :=
    (request_end_time_ns inp - request_start_time_ns inp) mod 2 ^ 64
    / 1000000 in
  (forall t, fst (loop_iteration inp s) = Slept t ->
     t = period - elapsed_ms /\ 0 < t <= period) /\
  (fst (loop_iteration inp s) = NoSleep -> period <= elapsed_ms).
Proof.
  intros period elapsed_ms.
  assert (Hsleep : sleep_time_ms (tf (snd (loop_iteration inp s))) inp
                   = period - elapsed_ms).
  { unfold sleep_time_ms.
    destruct (pass_keeps_shared_inputs_aux inp s) as (-> & _). done. }
  assert (Hnonneg : 0 <= elapsed_ms).
  { subst elapsed_ms. apply Z.div_pos; [|lia].
    apply Z.mod_pos_bound. lia. }
  pose proof (sleep_step_unless_break_or_continue inp s) as Hexit.
  simpl in Hexit. rewrite Hsleep in Hexit.
  destruct (Z.ltb_spec 0 (period - elapsed_ms)) as [Hpos | Hneg].
  - split.
    + intros t Ht. rewrite Ht in Hexit.
      destruct Hexit as [[=] | [[=] | [[=] | [= ->]]]]. lia.
    + intros Hno. rewrite Hno in Hexit.
      by destruct Hexit as [[=] | [[=] | [[=] | [=]]]].
  - split.
    + intros t Ht. rewrite Ht in Hexit.
      by destruct Hexit as [[=] | [[=] | [[=] | [=]]]].
    + intros _. lia.
Qed.

Lemma wait_is_rest_of_period_witness :
  let s := Sim.state (Sim.settings false 15 60 [])
             (Sim.flat_frame 3 3 9) (Sim.flat_frame 3 3 7) in
  let backend_ := Sim.backend (Some ["h"; "i"]%char) 80 None in
  95 = 100 - (5001000 - 1000) mod 2 ^ 64 / 1000000 /\ 0 < 95 <= 100.
Proof.
  intros s backend_.
  apply (proj1 (@wait_is_rest_of_period Sim.opencv backend_ Sim.host
                  Sim.pass s) 95).
  by vm_compute.
Defined.

(** X15.  A pass that does not obtain the frame lock, or finds the shared
    frame empty, changes nothing and publishes nothing; it goes to the sleep
    step. *)
Theorem pass_without_frame_does_nothing `{OpenCV} `{Tesseract} `{Host}
    (inp : iteration_input) (s : thread_state) :
  tesseract_thread_run (tf s) = true ->
  owns_lock inp = false \/ Cv.empty (inputBGRA (tf s)) = true ->
  snd (loop_iteration inp s) = s /\
  fst (loop_iteration inp s)
    = if 0 <? sleep_time_ms (tf s) inp
      then Slept (sleep_time_ms (tf s) inp) else NoSleep.
Proof.
  intros Hrun Hnone.
  assert (Hempty : Cv.empty (snapshot inp s) = true).
  { unfold snapshot. destruct (owns_lock inp); [|done].
    by destruct Hnone. }
  by rewrite (loop_iteration_no_frame inp s Hrun Hempty).
Qed.

Lemma pass_without_frame_does_nothing_witness :
  let s := Sim.state (Sim.settings true 15 60 [])
             (Sim.flat_frame 3 3 9) (Sim.flat_frame 3 3 7) in
  let backend_ := Sim.backend (Some ["h"; "i"]%char) 80 None in
  let inp := {| owns_lock := false; request_start_time_ns := 0;
                request_end_time_ns := 200000000 |} in
  snd (@loop_iteration Sim.opencv backend_ Sim.host inp s) = s /\
  fst (@loop_iteration Sim.opencv backend_ Sim.host inp s)
    = if 0 <? sleep_time_ms (tf s) inp
      then Slept (sleep_time_ms (tf s) inp) else NoSleep.
Proof.
  intros s backend_ inp.
  apply (@pass_without_frame_does_nothing Sim.opencv backend_ Sim.host inp s).
  - reflexivity.
  - left. reflexivity.
Defined.

(** X16.  A pass is only left through the [continue] of the change check
    when change detection is on and the frame has the dimensions of the
    cache; in particular the first frame after the cache was reset is never
    skipped. *)
Theorem skipped_only_with_detection_and_same_size
    `{OpenCV} `{Tesseract} `{Host}
    (inp : iteration_input) (s : thread_state) :
  (fst (loop_iteration inp s) = Continue ->
     update_on_change (config (tf s)) = true /\
     Cv.cols (snapshot inp s) = Cv.cols (lastInputBGRA (tf s)) /\
     Cv.rows (snapshot inp s) = Cv.rows (lastInputBGRA (tf s))) /\
  (lastInputBGRA (tf s) = Cv.Mat_default ->
     fst (loop_iteration inp s) <> Continue).
Proof.
  assert (Hmain : fst (loop_iteration inp s) = Continue ->
     Cv.empty (snapshot inp s) = false /\
     update_on_change (config (tf s)) = true /\
     Cv.cols (snapshot inp s) = Cv.cols (lastInputBGRA (tf s)) /\
     Cv.rows (snapshot inp s) = Cv.rows (lastInputBGRA (tf s))).
  { intros Hexit.
    destruct (continue_means_skip inp s Hexit) as (_ & Hempty & Hskip).
    split; [done|].
    unfold skip_processing, bind, get_tf, ret in Hskip. simpl in Hskip.
    destruct (update_on_change (config (tf s))); [|done].
    unfold Cv.Size_eqb, Cv.size, Cv.width, Cv.height in Hskip. simpl in Hskip.
    destruct (Z.eqb_spec (Cv.cols (snapshot inp s))
                (Cv.cols (lastInputBGRA (tf s)))); [|done].
    destruct (Z.eqb_spec (Cv.rows (snapshot inp s))
                (Cv.rows (lastInputBGRA (tf s)))); [|done].
    done. }
  split.
  - intros Hexit. by destruct (Hmain Hexit) as (_ & ? & ? & ?).
  - intros Hreset Hexit.
    destruct (Hmain Hexit) as (Hempty & _ & Hcols & Hrows).
    rewrite Hreset in Hcols, Hrows. simpl in Hcols, Hrows.
    unfold Cv.empty in Hempty. rewrite Hcols, Hrows in Hempty.
    by destruct (Cv.data (snapshot inp s)).
Qed.

Lemma skipped_only_with_detection_and_same_size_witness :
  let s := Sim.state (Sim.settings true 15 60 [])
             (Sim.flat_frame 3 3 9) Cv.Mat_default in
  let backend_ := Sim.backend (Some ["h"; "i"]%char) 80 None in
  fst (@loop_iteration Sim.opencv backend_ Sim.host Sim.pass s) <> Continue.
Proof.
  intros s backend_.
  apply (proj2 (@skipped_only_with_detection_and_same_size
                  Sim.opencv backend_ Sim.host Sim.pass s)).
  reflexivity.
Defined.

(** X17.  Seeing the same frame again: after a pass that processed a frame,
    a pass over the same shared frame is left through [continue], with
    nothing changed, provided the computed pixel threshold is at least 1 and
    OpenCV reports no differing pixel between the frame and itself. *)
Theorem same_frame_again_is_skipped `{OpenCV} `{Tesseract} `{Host}
    (inp1 inp2 : iteration_input) (s : thread_state)
    (T : Z) (diff gray : Cv.Mat) :
  let frame := inputBGRA (tf s) in
  let s1 := snd (loop_iteration inp1 s) in
  tesseract_thread_run (tf s) = true ->
  owns_lock inp1 = true -> owns_lock inp2 = true ->
  Cv.empty frame = false ->
  update_on_change (config (tf s)) = true ->
  fst (skip_processing frame s) = Normal false ->
  change_threshold_from_image_area (tf s) frame = Some T -> 1 <= T ->
  absdiff frame frame = Normal diff ->
  cvtColor diff Cv.COLOR_BGRA2GRAY = Normal gray ->
  countNonZero gray = Normal 0 ->
  loop_iteration inp2 s1 = (Continue, s1).
Proof.
  intros frame s1 Hrun Hlock1 Hlock2 Hempty Hon Hpass HT HT1 Hdiff Hgray Hzero.
  assert (Hsnap1 : snapshot inp1 s = frame).
  { unfold snapshot. by rewrite Hlock1. }
  destruct (pass_keeps_shared_inputs_aux inp1 s) as (Hcfg & Hin & Hflag).
  fold s1 in Hcfg, Hin, Hflag.
  assert (Hcache : lastInputBGRA (tf s1) = frame).
  { pose proof (loop_iteration_cases inp1 s Hrun) as Hcases.
    rewrite Hsnap1 in Hcases. specialize (Hcases Hempty).
    rewrite Hpass in Hcases. by destruct Hcases. }
  assert (Hsnap2 : snapshot inp2 s1 = frame).
  { unfold snapshot. by rewrite Hlock2, Hin. }
  pose proof (loop_iteration_cases inp2 s1) as Hcases.
  rewrite Hsnap2, Hflag, Hrun in Hcases. specialize (Hcases eq_refl Hempty).
  assert (Hskip : fst (skip_processing frame s1) = Normal true).
  { unfold skip_processing, bind, get_tf, lift, ret. simpl.
    rewrite Hcfg, Hon, Hcache. unfold Cv.Size_eqb. rewrite !Z.eqb_refl. simpl.
    assert (HT' : change_threshold_from_image_area (tf s1) frame = Some T).
    { unfold change_threshold_from_image_area in *. by rewrite Hcfg. }
    rewrite HT', Hdiff, Hgray, Hzero. simpl. f_equal. apply Z.ltb_lt. lia. }
  by rewrite Hskip in Hcases.
Qed.

Lemma same_frame_again_is_skipped_witness :
  let s := Sim.state (Sim.settings true 15 60 [])
             (Sim.flat_frame 3 3 9) (Sim.flat_frame 3 3 7) in
  let backend_ := Sim.backend (Some ["h"; "i"]%char) 80 None in
  let s1 := snd (@loop_iteration Sim.opencv backend_ Sim.host Sim.pass s) in
  @loop_iteration Sim.opencv backend_ Sim.host Sim.pass s1 = (Continue, s1).
Proof.
  intros s backend_ s1.
  apply (@same_frame_again_is_skipped Sim.opencv backend_ Sim.host
           Sim.pass Sim.pass s 1
           (Sim.with_data (Sim.flat_frame 3 3 9) 4 (replicate 36%nat 0))
           (Sim.with_data (Sim.flat_frame 3 3 9) 1 (replicate 9%nat 0)));
    try reflexivity; by vm_compute.
Defined.

(** X18.  An even block size is rounded up to the next odd one: in the two
    adaptive modes, and in every other mode, binarisation with an even
    block size gives what it gives with that size plus one. *)
Theorem even_block_size_behaves_as_next_odd `{OpenCV}
    (m : Cv.Mat) (s1 s2 : thread_state) :
  binarizationMode (config (tf s1)) = binarizationMode (config (tf s2)) ->
  binarizationThreshold (config (tf s1))
    = binarizationThreshold (config (tf s2)) ->
  Z.even (binarizationBlockSize (config (tf s1))) = true ->
  Int.in_range (binarizationBlockSize (config (tf s1))) = true ->
  binarizationBlockSize (config (tf s2))
    = binarizationBlockSize (config (tf s1)) + 1 ->
  fst (binarize m s1) = fst (binarize m s2).
Proof.
  intros Hmode Hthr Heven Hrange Hnext.
  apply Z.even_spec in Heven as [k Hk].
  assert (Hrem1 : Int.rem (binarizationBlockSize (config (tf s1))) 2 = 0).
  { unfold Int.rem. rewrite Hk, Z.mul_comm. by apply Z.rem_mul. }
  assert (Hrem2 : Int.rem (binarizationBlockSize (config (tf s2))) 2 <> 0).
  { unfold Int.rem. intros Hzero.
    pose proof (Z.quot_rem' (binarizationBlockSize (config (tf s2))) 2) as Hqr.
    rewrite Hzero, Hnext, Hk in Hqr. lia. }
  assert (Hadd : Int.add (binarizationBlockSize (config (tf s1))) 1
                 = binarizationBlockSize (config (tf s2))).
  { unfold Int.add, Int.wrap. rewrite Hnext.
    unfold Int.in_range, Int.min_signed, Int.max_signed in Hrange.
    apply andb_true_iff in Hrange as [Hlo Hhi].
    apply Z.leb_le in Hlo, Hhi.
    change (2 ^ 31) with 2147483648 in *. change (2 ^ 32) with 4294967296.
    rewrite Z.mod_small by lia. lia. }
  unfold binarize, bind, get_tf, lift, ret. simpl.
  rewrite Hmode, Hthr, Hrem1, Hadd. simpl.
  destruct (binarizationMode (config (tf s2)) =? 0); [done|].
  destruct (cvtColor m Cv.COLOR_BGRA2GRAY) as [gray| |]; simpl; [|done|done].
  destruct (binarizationMode (config (tf s2)) =? 1);
    [by destruct (threshold _ _ _ _)|].
  destruct ((binarizationMode (config (tf s2)) =? 2)
            || (binarizationMode (config (tf s2)) =? 3)).
  - destruct (Z.eqb_spec (Int.rem (binarizationBlockSize (config (tf s2))) 2) 0);
      [done|].
    destruct (binarizationMode (config (tf s2)) =? 2);
      by destruct (adaptiveThreshold _ _ _ _ _ _).
  - destruct (binarizationMode (config (tf s2)) =? 4);
      [by destruct (threshold _ _ _ _)|].
    destruct (binarizationMode (config (tf s2)) =? 5);
      [by destruct (threshold _ _ _ _)|done].
Qed.

Lemma even_block_size_behaves_as_next_odd_witness :
  let frame := Sim.flat_frame 2 2 9 in
  let s1 := Sim.state (SimMore.binarize_settings 2 8) frame frame in
  let s2 := Sim.state (SimMore.binarize_settings 2 9) frame frame in
  fst (@binarize Sim.opencv frame s1) = fst (@binarize Sim.opencv frame s2).
Proof.
  intros frame s1 s2.
  apply (@even_block_size_behaves_as_next_odd Sim.opencv frame s1 s2);
    reflexivity.
Defined.

(** X19.  The loop does not end by itself: as long as no other thread
    clears the run flag, no pass of the worker is left through [break]. *)
Theorem loop_runs_until_stopped `{OpenCV} `{Tesseract} `{Host}
    (schedule : list ((filter_data -> filter_data) * iteration_input)) :
  forall s : thread_state,
  tesseract_thread_run (tf s) = true ->
  (forall others inp tf_, (others, inp) ∈ schedule ->
     tesseract_thread_run (others tf_) = tesseract_thread_run tf_) ->
  Break ∉ fst (while_true schedule s).
Proof.
  induction schedule as [|[others inp] rest IH]; intros s Hrun Hothers; simpl.
  - apply not_elem_of_nil.
  - set (s0 := {| tf := others (tf s); published := published s |}).
    assert (Hrun0 : tesseract_thread_run (tf s0) = true).
    { simpl. rewrite (Hothers others inp); [done | by left]. }
    destruct (pass_keeps_shared_inputs_aux inp s0) as (_ & _ & Hflag).
    assert (Hexit : fst (loop_iteration inp s0) <> Break).
    { unfold loop_iteration. rewrite Hrun0. simpl.
      destruct (if negb (Cv.empty (snapshot inp s0)) then _ else _)
        as [[[|]|] s1]; simpl; try done.
      by destruct (0 <? sleep_time_ms (tf s1) inp). }
    destruct (loop_iteration inp s0) as [exit s1]. simpl in *.
    assert (Hrest : Break ∉ fst (while_true rest s1)).
    { apply IH; [congruence|]. intros o i t Hin. apply (Hothers o i t). by right. }
    destruct exit; try done.
    + destruct (while_true rest s1) as [exits s2]. simpl in *.
      intros Hin. apply elem_of_cons in Hin as [[=] | Hin]. by apply Hrest.
    + destruct (while_true rest s1) as [exits s2]. simpl in *.
      intros Hin. apply elem_of_cons in Hin as [[=] | Hin]. by apply Hrest.
    + destruct (while_true rest s1) as [exits s2]. simpl in *.
      intros Hin. apply elem_of_cons in Hin as [[=] | Hin]. by apply Hrest.
    + simpl. intros Hin. apply elem_of_cons in Hin as [[=] | Hin].
      by apply elem_of_nil in Hin.
Qed.

Lemma loop_runs_until_stopped_witness :
  let s := Sim.state (Sim.settings false 15 60 [])
             (Sim.flat_frame 3 3 9) (Sim.flat_frame 3 3 7) in
  let backend_ := Sim.backend (Some ["h"; "i"]%char) 80 None in
  Break ∉ fst (@while_true Sim.opencv backend_ Sim.host
                 [(id, Sim.pass); (id, Sim.pass)] s).
Proof.
  intros s backend_.
  apply (@loop_runs_until_stopped Sim.opencv backend_ Sim.host).
  - reflexivity.
  - intros others inp tf_ Hin.
    apply list_elem_of_In in Hin. simpl in Hin.
    destruct Hin as [[= <- _] | [[= <- _] | []]]; reflexivity.
Defined.

End WorkerMore.

(** ** Properties of cleanup, initialisation and shutdown *)

Module LifecycleProps.
Import Lifecycle.

Local Open Scope string_scope.

Section Files.

Context `{ObsModule} `{Host}.

(** Making sure that the configuration folder exists creates no file and
    removes none. *)
Hypothesis folder_check_keeps_files :
  forall files_ : gmap string string,
    check_plugin_config_folder_exists files_ = files_.

(** What [cleanup_config_files] leaves of every path. *)
Lemma cleanup_config_files_lookup (id path : string)
    (files_ : gmap string string) :
  cleanup_config_files id files_ !! path =
    if decide (path = obs_module_config_path ("user-patterns-" +:+ id +:+ ".txt")
               \/ path = obs_module_config_path
                           ("user-patterns" +:+ id +:+ ".config")
               \/ path = obs_module_config_path (id +:+ ".png"))
    then None else files_ !! path.
Proof.
  unfold cleanup_config_files, remove. rewrite folder_check_keeps_files.
  rewrite !lookup_delete.
  repeat case_decide; try done; intuition congruence.
Qed.

(** The files after the part of initialisation that writes them. *)
Lemma save_user_patterns_files (p : plugin) :
  files (fst (save_user_patterns p)) =
    if String.eqb (user_patterns (ini p)) EmptyString then files p
    else
      <[obs_module_config_path
          ("user-patterns" +:+ unique_id (ini p) +:+ ".config") :=
          "user_patterns_file " +:+
          obs_module_config_path
            ("user-patterns-" +:+ unique_id (ini p) +:+ ".txt") +:+
          String "010"%char EmptyString]>
        (<[obs_module_config_path
             ("user-patterns-" +:+ unique_id (ini p) +:+ ".txt") :=
             user_patterns (ini p)]> (files p)).
Proof.
  unfold save_user_patterns.
  destruct (String.eqb (user_patterns (ini p)) EmptyString); simpl; [done|].
  unfold write_file. by rewrite folder_check_keeps_files.
Qed.

Lemma stop_and_join_rest (p : plugin) :
  ini (stop_and_join_tesseract_thread p) = ini p /\
  model (stop_and_join_tesseract_thread p) = model p /\
  files (stop_and_join_tesseract_thread p) = files p /\
  log (stop_and_join_tesseract_thread p) = log p /\
  config (tf (stop_and_join_tesseract_thread p)) = config (tf p) /\
  smoothing_filter (tf (stop_and_join_tesseract_thread p))
    = smoothing_filter (tf p) /\
  tesseract_thread_run (tf (stop_and_join_tesseract_thread p)) = false /\
  (tesseract_thread_run (tf p) = true \/ thread_joinable p = false ->
   thread_joinable (stop_and_join_tesseract_thread p) = false).
Proof.
  unfold stop_and_join_tesseract_thread.
  destruct (tesseract_thread_run (tf p)) eqn:Hrun; simpl.
  - destruct (thread_joinable p) eqn:Hj; simpl; by repeat split.
  - repeat split; try done. by intros [? | ?].
Qed.

(** X20.  [cleanup_config_files] removes the user-patterns file, its
    config file and the mask image of the instance and leaves every other
    file as it is; files that are missing are no error, so that a second
    cleanup changes nothing. *)
Theorem cleanup_removes_exactly_its_files (id : string)
    (files_ : gmap string string) :
  let patterns := obs_module_config_path ("user-patterns-" +:+ id +:+ ".txt") in
  let config_ :=
    obs_module_config_path ("user-patterns" +:+ id +:+ ".config") in
  let mask := obs_module_config_path (id +:+ ".png") in
  cleanup_config_files id files_ !! patterns = None /\
  cleanup_config_files id files_ !! config_ = None /\
  cleanup_config_files id files_ !! mask = None /\
  (forall path, path <> patterns -> path <> config_ -> path <> mask ->
     cleanup_config_files id files_ !! path = files_ !! path) /\
  cleanup_config_files id (cleanup_config_files id files_)
    = cleanup_config_files id files_.
Proof.
  intros patterns config_ mask.
  split; [|split; [|split; [|split]]].
  - rewrite cleanup_config_files_lookup. case_decide; [done | tauto].
  - rewrite cleanup_config_files_lookup. case_decide; [done | tauto].
  - rewrite cleanup_config_files_lookup. case_decide; [done | tauto].
  - intros path H1 H2 H3. rewrite cleanup_config_files_lookup.
    case_decide; [tauto | done].
  - apply map_eq. intros path. rewrite !cleanup_config_files_lookup.
    by case_decide.
Qed.

(** The plugin when [Init] or, for a soft initialisation, line 120 is
    reached: field by field. *)
Lemma before_init (hard : bool) (p : plugin) :
  let q := fst (save_user_patterns (ensure_mask_folder (reset_backend hard p))) in
  ini q = ini p /\
  files q = files (fst (save_user_patterns p)) /\
  snd (save_user_patterns (ensure_mask_folder (reset_backend hard p)))
    = snd (save_user_patterns p) /\
  model q = (if hard then None else model p) /\
  tf q = (if hard then tf (stop_and_join_tesseract_thread p) else tf p) /\
  thread_joinable q
    = (if hard then thread_joinable (stop_and_join_tesseract_thread p)
       else thread_joinable p).
Proof.
  destruct p as [tf0 ini0 model0 joinable0 files0 log0].
  unfold ensure_mask_folder, reset_backend, save_user_patterns,
    stop_and_join_tesseract_thread.
  destruct hard; simpl.
  - destruct (tesseract_thread_run tf0); simpl;
      [destruct joinable0; simpl|];
      destruct model0; simpl;
      destruct (is_valid_output_source_name _); simpl;
      rewrite ?folder_check_keeps_files;
      destruct (String.eqb (user_patterns ini0) EmptyString); simpl;
      rewrite ?folder_check_keeps_files; done.
  - destruct (is_valid_output_source_name _); simpl;
      rewrite ?folder_check_keeps_files;
      destruct (String.eqb (user_patterns ini0) EmptyString); simpl;
      rewrite ?folder_check_keeps_files; done.
Qed.

(** What lines 120-137 do, field by field. *)
Lemma apply_settings_and_start_spec (hard : bool) (q p' : plugin) :
  apply_settings_and_start hard q = Some p' ->
  exists m,
    model q = Some m /\
    (hard = true -> thread_joinable q = false) /\
    ini p' = ini q /\ files p' = files q /\ log p' = log q /\
    thread_joinable p' = (if hard then true else thread_joinable q) /\
    model p' = Some {| loaded := loaded m; configs := configs m;
                       PageSegMode :=
                         Some (pageSegmentationMode (config (tf q)));
                       tessedit_char_whitelist :=
                         Some (char_whitelist (ini q)) |} /\
    config (tf p') = config (tf q) /\
    tesseract_thread_run (tf p') = tesseract_thread_run (tf q) /\
    smoothing_filter (tf p')
      = (if enable_smoothing (config (tf q))
         then Some (Smoothing.new_filter (word_length (ini q))
                      (window_size (ini q)))
         else smoothing_filter (tf q)).
Proof.
  destruct q as [tf0 ini0 model0 joinable0 files0 log0].
  unfold apply_settings_and_start. simpl.
  destruct model0 as [m|]; [|done]. simpl.
  destruct (enable_smoothing (config tf0)) eqn:Hon; simpl;
    destruct hard; simpl;
    try (destruct joinable0; [done|]);
    intros [= <-]; exists m; simpl; rewrite ?Hon; by repeat split.
Qed.

Lemma initialize_files
    (hard_tesseract_init_required : bool) (p p' : plugin) :
  initialize_tesseract_ocr hard_tesseract_init_required p = Some p' ->
  let patterns :=
    obs_module_config_path
      ("user-patterns-" +:+ unique_id (ini p) +:+ ".txt") in
  let config_ :=
    obs_module_config_path
      ("user-patterns" +:+ unique_id (ini p) +:+ ".config") in
  files p' =
    if String.eqb (user_patterns (ini p)) EmptyString then files p
    else
      <[config_ := "user_patterns_file " +:+ patterns +:+
                   String "010"%char EmptyString]>
        (<[patterns := user_patterns (ini p)]> (files p)).
Proof.
  intros Hinit patterns config_. subst patterns config_.
  rewrite <- save_user_patterns_files.
  unfold initialize_tesseract_ocr in Hinit.
  pose proof (before_init hard_tesseract_init_required p)
    as (_ & Hfiles & _).
  destruct (save_user_patterns
              (ensure_mask_folder
                 (reset_backend hard_tesseract_init_required p)))
    as [q configs_]. simpl in Hfiles.
  destruct hard_tesseract_init_required.
  - unfold load_model in Hinit. simpl in Hinit.
    destruct (negb _).
    + injection Hinit as <-. done.
    + apply apply_settings_and_start_spec in Hinit
        as (m & _ & _ & _ & -> & _). done.
  - apply apply_settings_and_start_spec in Hinit as (m & _ & _ & _ & -> & _).
    done.
Qed.

(** X21.  Whenever initialisation returns, the files are those it found,
    except that for non-empty user patterns the patterns file holds the
    patterns and the config file holds one line that points to the patterns
    file. *)
Theorem initialize_writes_pattern_files
    (hard_tesseract_init_required : bool) (p p' : plugin) :
  initialize_tesseract_ocr hard_tesseract_init_required p = Some p' ->
  let patterns :=
    obs_module_config_path
      ("user-patterns-" +:+ unique_id (ini p) +:+ ".txt") in
  let config_ :=
    obs_module_config_path
      ("user-patterns" +:+ unique_id (ini p) +:+ ".config") in
  files p' =
    if String.eqb (user_patterns (ini p)) EmptyString then files p
    else
      <[config_ := "user_patterns_file " +:+ patterns +:+
                   String "010"%char EmptyString]>
        (<[patterns := user_patterns (ini p)]> (files p)).
Proof. apply initialize_files. Qed.

(** X22.  Cleanup undoes what initialisation wrote: after an
    initialisation, cleaning up for the same instance id leaves the files
    that a cleanup without the initialisation would have left. *)
Theorem cleanup_undoes_initialize
    (hard_tesseract_init_required : bool) (p p' : plugin) :
  initialize_tesseract_ocr hard_tesseract_init_required p = Some p' ->
  cleanup_config_files (unique_id (ini p)) (files p')
    = cleanup_config_files (unique_id (ini p)) (files p).
Proof.
  intros Hinit. apply map_eq. intros path.
  rewrite !cleanup_config_files_lookup. case_decide as Hpath; [done|].
  rewrite (initialize_files _ _ _ Hinit).
  destruct (String.eqb (user_patterns (ini p)) EmptyString); [done|].
  rewrite !lookup_insert_ne; [done | |]; intros <-; tauto.
Qed.

(** The plugin when lines 120-137 are reached after a successful [Init],
    and when the handler is reached after a failed one. *)
Lemma initialize_hard (p : plugin) :
  let q := fst (save_user_patterns (ensure_mask_folder (reset_backend true p))) in
  let cfgs := snd (save_user_patterns p) in
  let retval :=
    Init (tesseractTraineddataFilepath (ini p)) (language (ini p)) cfgs
      (files q) in
  let loading :=
    LOG_INFO ("Loading tesseract model from: " +:+
              tesseractTraineddataFilepath (ini p)) in
  let m := {| loaded := Z.eqb retval 0; configs := cfgs;
              PageSegMode := None; tessedit_char_whitelist := None |} in
  initialize_tesseract_ocr true p =
    if Z.eqb retval 0 then
      apply_settings_and_start true (set_model (Some m) (obs_log loading q))
    else
      Some (obs_log
              (LOG_ERROR ("Failed to load tesseract model: " +:+
                          "Failed to initialize tesseract model"))
              (set_model (Some m) (obs_log loading q))).
Proof.
  intros q cfgs retval loading m. subst q cfgs retval loading m.
  unfold initialize_tesseract_ocr, load_model.
  pose proof (before_init true p) as (Hini & _ & Hcfgs & _).
  destruct (save_user_patterns (ensure_mask_folder (reset_backend true p)))
    as [q cfgs]. simpl in *. rewrite <- Hcfgs, Hini.
  by destruct (Z.eqb _ 0).
Qed.

(** X23.  When [Init] fails, a hard initialisation of a plugin whose
    worker is running, or was never started, returns with the error logged
    last, the model created but not loaded, the smoothing filter as it was,
    the run flag clear and no worker thread left or started. *)
Theorem failed_init_starts_no_worker (p : plugin) :
  (forall cfgs files_,
     Init (tesseractTraineddataFilepath (ini p)) (language (ini p)) cfgs files_
       <> 0%Z) ->
  tesseract_thread_run (tf p) = true \/ thread_joinable p = false ->
  exists p' m,
    initialize_tesseract_ocr true p = Some p' /\
    model p' = Some m /\ loaded m = false /\
    tesseract_thread_run (tf p') = false /\
    thread_joinable p' = false /\
    smoothing_filter (tf p') = smoothing_filter (tf p) /\
    last (log p')
      = Some (LOG_ERROR ("Failed to load tesseract model: " +:+
                         "Failed to initialize tesseract model")).
Proof.
  intros Hfail Hworker. rewrite initialize_hard.
  pose proof (before_init true p) as (_ & _ & _ & _ & Htf & Hjoin).
  pose proof (stop_and_join_rest p)
    as (_ & _ & _ & _ & _ & Hsm & Hflag & Hjoined).
  destruct (Z.eqb_spec
              (Init (tesseractTraineddataFilepath (ini p)) (language (ini p))
                 (snd (save_user_patterns p))
                 (files (fst (save_user_patterns
                                (ensure_mask_folder (reset_backend true p))))))
              0) as [Hzero | _]; [by apply Hfail in Hzero|].
  set (q := fst (save_user_patterns (ensure_mask_folder (reset_backend true p))))
    in *.
  clearbody q. eexists _, _. split; [reflexivity|]. simpl.
  split; [reflexivity|]. split; [done|].
  rewrite Htf, Hjoin. split; [done|]. split; [by apply Hjoined|].
  split; [done|]. apply last_snoc.
Qed.

(** X24.  When [Init] succeeds, a hard initialisation of a plugin whose
    worker is running, or was never started, returns with the model loaded
    and given the page segmentation mode and the whitelist, the smoothing
    filter new when smoothing is enabled and as it was otherwise, and a new
    worker thread started. *)
Theorem hard_init_starts_worker (p : plugin) :
  (forall cfgs files_,
     Init (tesseractTraineddataFilepath (ini p)) (language (ini p)) cfgs files_
       = 0%Z) ->
  tesseract_thread_run (tf p) = true \/ thread_joinable p = false ->
  exists p' m,
    initialize_tesseract_ocr true p = Some p' /\
    model p' = Some m /\ loaded m = true /\
    PageSegMode m = Some (pageSegmentationMode (config (tf p))) /\
    tessedit_char_whitelist m = Some (char_whitelist (ini p)) /\
    thread_joinable p' = true /\
    smoothing_filter (tf p')
      = (if enable_smoothing (config (tf p))
         then Some (Smoothing.new_filter (word_length (ini p))
                      (window_size (ini p)))
         else smoothing_filter (tf p)).
Proof.
  intros Hok Hworker. rewrite initialize_hard.
  pose proof (before_init true p) as (Hini & _ & _ & _ & Htf & Hjoin).
  pose proof (stop_and_join_rest p)
    as (_ & _ & _ & _ & Hcfg & Hsm & Hflag & Hjoined).
  rewrite Hok.
  set (q := fst (save_user_patterns (ensure_mask_folder (reset_backend true p))))
    in *.
  clearbody q. change (Z.eqb 0 0) with true. cbv iota.
  match goal with
  | |- context [apply_settings_and_start true ?x] =>
      destruct (apply_settings_and_start true x)
    as [p'|] eqn:Hstart
  end.
  - apply apply_settings_and_start_spec in Hstart
      as (m & Hm & _ & _ & _ & _ & Hj & Hmodel & Hc & Hrun & Hfilter).
    simpl in *. injection Hm as <-. simpl in *.
    eexists p', _. split; [done|]. split; [exact Hmodel|]. simpl.
    rewrite Hfilter, Hini, !Htf, Hcfg, Hsm. by repeat split.
  - exfalso. unfold apply_settings_and_start in Hstart. simpl in Hstart.
    destruct (enable_smoothing (config (tf q))); simpl in Hstart;
      by rewrite Hjoin, (Hjoined Hworker) in Hstart.
Qed.

(** X25.  A soft initialisation needs a model: with one, it returns
    having written neither the thread handle nor the run flag, with the
    model as it was loaded, the page segmentation mode and the whitelist set
    again and the smoothing filter new when smoothing is enabled; without
    one its behaviour is undefined. *)
Theorem soft_init_keeps_model_and_thread (p : plugin) :
  match model p with
  | Some m =>
      exists p',
        initialize_tesseract_ocr false p = Some p' /\
        model p' = Some {| loaded := loaded m; configs := configs m;
                           PageSegMode :=
                             Some (pageSegmentationMode (config (tf p)));
                           tessedit_char_whitelist :=
                             Some (char_whitelist (ini p)) |} /\
        thread_joinable p' = thread_joinable p /\
        tesseract_thread_run (tf p') = tesseract_thread_run (tf p) /\
        smoothing_filter (tf p')
          = (if enable_smoothing (config (tf p))
             then Some (Smoothing.new_filter (word_length (ini p))
                          (window_size (ini p)))
             else smoothing_filter (tf p))
  | None => initialize_tesseract_ocr false p = None
  end.
Proof.
  unfold initialize_tesseract_ocr.
  pose proof (before_init false p) as (Hini & _ & _ & Hmodel & Htf & Hjoin).
  destruct (save_user_patterns (ensure_mask_folder (reset_backend false p)))
    as [q cfgs]. simpl in *.
  destruct (model p) as [m|] eqn:Hm.
  - destruct (apply_settings_and_start false q) as [p'|] eqn:Hstart.
    + apply apply_settings_and_start_spec in Hstart
        as (m' & Hm' & _ & _ & _ & _ & Hj & Hmodel' & Hc & Hrun & Hfilter).
      rewrite Hmodel in Hm'. injection Hm' as <-.
      exists p'. split; [done|].
      rewrite Hmodel', Hj, Hrun, Hfilter, Hini, Htf, Hjoin. by repeat split.
    + unfold apply_settings_and_start in Hstart. by rewrite Hmodel in Hstart.
  - unfold apply_settings_and_start. by rewrite Hmodel.
Qed.

End Files.

Lemma cleanup_removes_exactly_its_files_witness :
  let files_ : gmap string string :=
    <["/config/a1.png" := "mask"]> (<["/config/b2.png" := "other"]> ∅) in
  @cleanup_config_files SimLifecycle.obs "a1" files_ !! "/config/a1.png" = None /\
  @cleanup_config_files SimLifecycle.obs "a1" files_ !! "/config/b2.png"
    = Some "other".
Proof.
  intros files_.
  destruct (@cleanup_removes_exactly_its_files SimLifecycle.obs
              (fun _ => eq_refl) "a1" files_) as (_ & _ & Hmask & Hother & _).
  split; [exact Hmask|].
  rewrite Hother; [reflexivity | | |]; vm_compute; discriminate.
Defined.

Lemma initialize_writes_pattern_files_witness :
  exists p',
    @initialize_tesseract_ocr SimLifecycle.obs Sim.host true
      (SimLifecycle.fresh "ab" "/models") = Some p' /\
    files p' !! "/config/user-patterns-a1.txt" = Some "ab".
Proof.
  destruct (@initialize_tesseract_ocr SimLifecycle.obs Sim.host true
              (SimLifecycle.fresh "ab" "/models")) as [p'|] eqn:Hinit;
    [|vm_compute in Hinit; discriminate].
  exists p'. split; [reflexivity|].
  rewrite (@initialize_writes_pattern_files SimLifecycle.obs Sim.host
             (fun _ => eq_refl) true _ p' Hinit).
  vm_compute. reflexivity.
Defined.

Lemma cleanup_undoes_initialize_witness :
  exists p',
    @initialize_tesseract_ocr SimLifecycle.obs Sim.host true
      (SimLifecycle.fresh "ab" "/models") = Some p' /\
    @cleanup_config_files SimLifecycle.obs "a1" (files p') = ∅.
Proof.
  destruct (@initialize_tesseract_ocr SimLifecycle.obs Sim.host true
              (SimLifecycle.fresh "ab" "/models")) as [p'|] eqn:Hinit;
    [|vm_compute in Hinit; discriminate].
  exists p'. split; [reflexivity|].
  etrans;
    [exact (@cleanup_undoes_initialize SimLifecycle.obs Sim.host
              (fun _ => eq_refl) true _ p' Hinit)|].
  vm_compute. reflexivity.
Defined.

Lemma failed_init_starts_no_worker_witness :
  exists p' m,
    @initialize_tesseract_ocr SimLifecycle.obs Sim.host true
      (SimLifecycle.fresh "ab" EmptyString) = Some p' /\
    model p' = Some m /\ loaded m = false /\
    tesseract_thread_run (tf p') = false /\
    thread_joinable p' = false /\
    smoothing_filter (tf p')
      = smoothing_filter (tf (SimLifecycle.fresh "ab" EmptyString)) /\
    last (log p')
      = Some (LOG_ERROR ("Failed to load tesseract model: " +:+
                         "Failed to initialize tesseract model")).
Proof.
  apply (@failed_init_starts_no_worker SimLifecycle.obs Sim.host
           (fun _ => eq_refl) (SimLifecycle.fresh "ab" EmptyString)).
  - intros cfgs files_. vm_compute. discriminate.
  - right. reflexivity.
Defined.

Lemma hard_init_starts_worker_witness :
  let p := SimLifecycle.fresh "ab" "/models" in
  exists p' m,
    @initialize_tesseract_ocr SimLifecycle.obs Sim.host true p = Some p' /\
    model p' = Some m /\ loaded m = true /\
    PageSegMode m = Some (pageSegmentationMode (config (tf p))) /\
    tessedit_char_whitelist m = Some (char_whitelist (ini p)) /\
    thread_joinable p' = true /\
    smoothing_filter (tf p')
      = (if enable_smoothing (config (tf p))
         then Some (Smoothing.new_filter (word_length (ini p))
                      (window_size (ini p)))
         else smoothing_filter (tf p)).
Proof.
  intros p.
  apply (@hard_init_starts_worker SimLifecycle.obs Sim.host
           (fun _ => eq_refl) p).
  - intros cfgs files_. reflexivity.
  - right. reflexivity.
Defined.

Lemma soft_init_keeps_model_and_thread_witness :
  let m := {| loaded := true; configs := []; PageSegMode := None;
              tessedit_char_whitelist := None |} in
  let p := set_thread_joinable true
             (set_model (Some m) (SimLifecycle.fresh EmptyString "/models")) in
  exists p',
    @initialize_tesseract_ocr SimLifecycle.obs Sim.host false p = Some p' /\
    model p' = Some {| loaded := true; configs := [];
                       PageSegMode :=
                         Some (pageSegmentationMode (config (tf p)));
                       tessedit_char_whitelist :=
                         Some (char_whitelist (ini p)) |} /\
    thread_joinable p' = true /\
    tesseract_thread_run (tf p') = false /\
    smoothing_filter (tf p')
      = (if enable_smoothing (config (tf p))
         then Some (Smoothing.new_filter (word_length (ini p))
                      (window_size (ini p)))
         else smoothing_filter (tf p)).
Proof.
  intros m p.
  exact (@soft_init_keeps_model_and_thread SimLifecycle.obs Sim.host
           (fun _ => eq_refl) p).
Defined.

(** X26.  [stop_and_join_tesseract_thread] leaves the run flag clear and,
    when the worker was running, the thread joined; a second call changes
    nothing; and the worker's next pass is left through [break] before it
    looks at a frame. *)
Theorem stop_breaks_the_loop `{OpenCV} `{Tesseract} `{Host}
    (p : plugin) (inp : Worker.iteration_input) :
  let p' := stop_and_join_tesseract_thread p in
  tesseract_thread_run (tf p') = false /\
  (tesseract_thread_run (tf p) = true -> thread_joinable p' = false) /\
  stop_and_join_tesseract_thread p' = p' /\
  Worker.loop_iteration inp (worker_state p') = (Worker.Break, worker_state p').
Proof.
  intros p'. subst p'.
  assert (Hflag : tesseract_thread_run (tf (stop_and_join_tesseract_thread p))
                  = false).
  { unfold stop_and_join_tesseract_thread.
    destruct (tesseract_thread_run (tf p)) eqn:Hrun; simpl; [|done].
    by destruct (thread_joinable p). }
  split; [done|]. split; [|split].
  - intros Hrun. unfold stop_and_join_tesseract_thread. rewrite Hrun. simpl.
    by destruct (thread_joinable p) eqn:Hj.
  - unfold stop_and_join_tesseract_thread at 1. by rewrite Hflag.
  - unfold Worker.loop_iteration, worker_state. simpl. by rewrite Hflag.
Qed.


End LifecycleProps.
